(** * FHE agent-to-agent demo: the transformation-and-audit-trail pipeline

  A shallow embedding of [services/fheSimulation.ts] and
  [services/geminiService.ts], and of what the [EncryptionVisualizer] and
  [ProtocolLog] components decide to show.

  - A JavaScript [number] is an IEEE 754 binary64 value, modelled bit for
    bit by the Standard Library's [spec_float] at precision 53.
  - The ambient sources the code reaches for ([Math.random], [Date.now],
    [crypto.randomUUID]) are fields of a [World] that is threaded through
    a state monad, one cursor per source.
  - The awaited calls of [geminiService.ts] run in an error monad, with the
    hosted service and the JSON parser as collaborators that may throw. *)

From Stdlib Require Import ZArith List String Ascii Bool Lia Sorted.
From Stdlib Require Import SpecFloat.
From ExtLib Require Import Structures.Monad Structures.MonadState Structures.MonadExc.
From ExtLib Require Import Data.Monads.StateMonad Data.Monads.EitherMonad.
Import ListNotations.
Import MonadNotation.

Local Open Scope Z_scope.
Local Open Scope monad_scope.
Set Warnings "-register-all".

(** ** JavaScript numbers *)

Module JS.

Definition prec : Z := 53.
Definition emax : Z := 1024.

Definition number : Type := spec_float.

Definition NaN : number := S754_nan.

(** The Number that an integer literal denotes. *)
Definition of_Z (n : Z) : number := binary_normalize prec emax n 0 false.

Definition add (x y : number) : number := SFadd prec emax x y.
Definition sub (x y : number) : number := SFsub prec emax x y.
Definition mul (x y : number) : number := SFmul prec emax x y.
Definition div (x y : number) : number := SFdiv prec emax x y.

(** [x < y] and [x > y]; both are false as soon as one side is NaN. *)
Definition lt (x y : number) : bool := SFltb x y.
Definition gt (x y : number) : bool := SFltb y x.
Definition le (x y : number) : bool := SFleb x y.

(** A decimal literal [p/q] denotes the double nearest to it; with [p] and
    [q] exactly representable that is the correctly rounded quotient. *)
Definition lit (p q : Z) : number := div (of_Z p) (of_Z q).

(** [Math.floor]: NaN, the infinities and both zeros are returned as they
    are; a number with a non-negative exponent is already integral;
    otherwise the mantissa is divided by the power of two, rounding
    towards minus infinity. *)
Definition Math_floor (x : number) : number :=
  match x with
  | S754_finite s m e =>
      if 0 <=? e then x
      else of_Z (cond_Zopp s (Zpos m) / 2 ^ (- e))
  | _ => x
  end.

(** [Math.min(x, y)]: NaN if either argument is NaN, the smaller one
    otherwise, and -0 is smaller than +0. *)
Definition Math_min (x y : number) : number :=
  match SFcompare y x with
  | None => NaN
  | Some Lt => y
  | Some Gt => x
  | Some Eq => match y with S754_zero true => y | _ => x end
  end.

(** [Math.sqrt], correctly rounded. *)
Definition Math_sqrt (x : number) : number := SFsqrt prec emax x.

(** [Math.pow(x, 2)], as the correctly rounded square. *)
Definition Math_pow2 (x : number) : number := mul x x.

(** The integer a Number denotes, when it denotes one. *)
Definition to_Z (x : number) : option Z :=
  match x with
  | S754_zero _ => Some 0
  | S754_finite s m e =>
      if 0 <=? e then Some (cond_Zopp s (Zpos m * 2 ^ e))
      else if Zpos m mod 2 ^ (- e) =? 0
           then Some (cond_Zopp s (Zpos m / 2 ^ (- e)))
           else None
  | _ => None
  end.

(** [m * 2^e] is the integer [N], with a common shift [K] that clears a
    negative exponent. *)
Definition dyadic (m e N : Z) : Prop :=
  exists K, 0 <= K /\ 0 <= e + K /\ m * 2 ^ (e + K) = N * 2 ^ K.

End JS.

(** ** JavaScript strings *)

Module JSString.

Local Open Scope string_scope.

(** [s.substring(n)] *)
Definition substring_from (n : nat) (s : string) : string :=
  substring n (String.length s - n) s.

(** [s.slice(-n)]: the last [n] characters, the whole string when it is
    shorter. *)
Definition slice_last (n : nat) (s : string) : string :=
  substring (String.length s - n) n s.

Definition hex_digit (d : Z) : ascii :=
  nth (Z.to_nat d) (list_ascii_of_string "0123456789abcdef") "0"%char.

Definition is_hex (c : ascii) : bool :=
  existsb (Ascii.eqb c) (list_ascii_of_string "0123456789abcdef").

(** Digits of a positive integer in radix 16, most significant first. *)
Fixpoint hex_digits (fuel : nat) (n : Z) (acc : string) : string :=
  match fuel with
  | O => acc
  | S fuel' =>
      let acc' := String (hex_digit (n mod 16)) acc in
      if (n / 16 =? 0)%Z then acc' else hex_digits fuel' (n / 16) acc'
  end.

Definition hex_of_Z (n : Z) : string :=
  hex_digits (S (Z.to_nat (Z.log2 n))) n "".

(** Digits after the point of [f / 2^k], for [0 <= f < 2^k]; the expansion
    of a binary fraction in radix 16 is finite. *)
Fixpoint hex_fraction (fuel : nat) (f k : Z) : string :=
  match fuel with
  | O => ""
  | S fuel' =>
      if (f =? 0)%Z then ""
      else String (hex_digit (f * 16 / 2 ^ k))
                  (hex_fraction fuel' ((f * 16) mod 2 ^ k) k)
  end.

(** [x.toString(16)].  Radix 16 is a power of two, so the shortest digit
    string that denotes [x] is its exact expansion. *)
Definition Number_toString16 (x : JS.number) : string :=
  match x with
  | S754_nan => "NaN"
  | S754_zero _ => "0"
  | S754_infinity s => if s then "-Infinity" else "Infinity"
  | S754_finite s m e =>
      (if s then "-" else "") ++
      (if (0 <=? e)%Z then hex_of_Z (Zpos m * 2 ^ e)
       else
         let k := - e in
         let i := Zpos m / 2 ^ k in
         let f := Zpos m mod 2 ^ k in
         (if (i =? 0)%Z then "0" else hex_of_Z i) ++
         (if (f =? 0)%Z then "" else "." ++ hex_fraction (Z.to_nat k) f k))
  end.

(** The shape [ct_0x] + exactly 6 hexadecimal characters + [...] + a
    non-empty suffix, as a matcher. *)
Fixpoint all_hex (s : string) : bool :=
  match s with
  | EmptyString => true
  | String c s' => is_hex c && all_hex s'
  end.




End JSString.

(** ** The ambient sources *)

Module Ambient.

Import JS.

Record World : Type := mkWorld {
  (** the successive results of [Math.random()] *)
  random_src : nat -> number;
  random_pos : nat;
  (** the successive results of [Date.now()], integral milliseconds *)
  clock_src : nat -> Z;
  clock_pos : nat;
  (** the successive results of [crypto.randomUUID()] *)
  uuid_src : nat -> string;
  uuid_pos : nat;
  (** [Number.prototype.toString(36)] of the host: which digits a
      fraction gets in a radix that is no power of two is up to the
      engine *)
  toString36 : number -> string
}.

Definition M : Type -> Type := state World.

Definition Math_random : M number :=
  w <- get ;;
  put (mkWorld (random_src w) (S (random_pos w)) (clock_src w) (clock_pos w)
               (uuid_src w) (uuid_pos w) (toString36 w)) ;;
  ret (random_src w (random_pos w)).

Definition Date_now : M number :=
  w <- get ;;
  put (mkWorld (random_src w) (random_pos w) (clock_src w) (S (clock_pos w))
               (uuid_src w) (uuid_pos w) (toString36 w)) ;;
  ret (of_Z (clock_src w (clock_pos w))).

Definition crypto_randomUUID : M string :=
  w <- get ;;
  put (mkWorld (random_src w) (random_pos w) (clock_src w) (clock_pos w)
               (uuid_src w) (S (uuid_pos w)) (toString36 w)) ;;
  ret (uuid_src w (uuid_pos w)).

Definition Number_toString36 (x : number) : M string :=
  w <- get ;; ret (toString36 w x).

(** The world after so many further reads of each source. *)
Definition advance (w : World) (randoms clocks uuids : nat) : World :=
  mkWorld (random_src w) (randoms + random_pos w)
          (clock_src w) (clocks + clock_pos w)
          (uuid_src w) (uuids + uuid_pos w) (toString36 w).

(** What a computation returns when it starts in world [w]. *)
Definition run {A : Type} (m : M A) (w : World) : A := fst (runState m w).

End Ambient.

(** ** types.ts *)

Module Types.

Import JS.

(** Modelled from the spec: [PatientVitals] of [types.ts], which is not
    among the sources; the fields are those of the VitalsRecord of
    section 3. *)
Record PatientVitals : Type := mkVitals {
  heartRate : number;
  systolic : number;
  diastolic : number;
  temperature : number;
  oxygenSat : number;
  symptomSeverity : number
}.

(** Modelled from the spec: [FheDataType] of [types.ts], the RawPayload of
    section 3, [number | PatientVitals | CreditProfile]; a credit profile is
    an object of numeric fields without a [heartRate] key, kept as the list
    that [Object.values] returns. *)
Inductive FheDataType : Type :=
| Scalar (n : number)
| Vitals (v : PatientVitals)
| Profile (fields : list number).

(** Modelled from the spec: [EncryptionState] of [types.ts], the
    EnvelopeState of section 3. *)
Inductive EncryptionState : Type :=
| PLAINTEXT | ENCRYPTED | PROCESSED | DECRYPTED.

(** Modelled from the spec: [FheValue] of [types.ts], the Envelope of
    section 3. *)
Record FheValue : Type := mkFheValue {
  id : string;
  rawValue : FheDataType;
  encryptedBlob : string;
  state : EncryptionState;
  history : list string
}.

(** Modelled from the spec: [SimulatedOpResult] of [types.ts], the
    AuditRecord of section 3.  The envelope and the prose line are kept; the
    formula, the step trace and the metric tags are display strings that
    no envelope field depends on. *)
Record SimulatedOpResult : Type := mkResult {
  value : FheValue;
  logDetails : string
}.

(** [typeof v === 'object'] *)
Definition typeof_object (v : FheDataType) : bool :=
  match v with Scalar _ => false | _ => true end.

(** [v as number] under an arithmetic operator: an object converts to
    NaN. *)
Definition as_number (v : FheDataType) : number :=
  match v with Scalar n => n | _ => NaN end.

End Types.

(** ** services/fheSimulation.ts *)

Module FheSimulation.

Import JS JSString Ambient Types.
Local Open Scope string_scope.

(** The [seed] of [generateCiphertext], by the shape of the value. *)
Definition ciphertext_seed (value : FheDataType) : number :=
  match value with
  | Scalar n => n
  | Vitals v => add (add (heartRate v) (systolic v)) (temperature v)
  | Profile fields => fold_left add fields (of_Z 0)
  end.

(** [generateCiphertext]: the random suffix is drawn first, the clock is
    read when the template is filled in. *)
Definition generateCiphertext (value : FheDataType) : M string :=
  r <- Math_random ;;
  r36 <- Number_toString36 r ;;
  let noise := substring_from 7 r36 in
  let seed := ciphertext_seed value in
  now <- Date_now ;;
  ret ("ct_0x"
       ++ slice_last 6 (Number_toString16 (add (mul seed (of_Z 1337)) now))
       ++ "..." ++ noise).

(** [generateToyLWE] *)
Record ToyLWE : Type := mkToyLWE {
  lwe_s : list number;
  lwe_a : list number;
  lwe_b : number;
  lwe_error : number;
  lwe_dotProduct : number;
  lwe_deltaM : number
}.

Definition draw_mask : M number :=
  r <- Math_random ;; ret (Math_floor (mul r (of_Z 1000))).

Definition generateToyLWE (message scale : number) : M ToyLWE :=
  let s := [of_Z 1; of_Z 0; of_Z 1; of_Z 0] in
  a0 <- draw_mask ;;
  a1 <- draw_mask ;;
  a2 <- draw_mask ;;
  a3 <- draw_mask ;;
  let a := [a0; a1; a2; a3] in
  r <- Math_random ;;
  let error := add (Math_floor (mul r (of_Z 5))) (of_Z 1) in
  let deltaM := mul message scale in
  let dotProduct :=
    fold_left (fun sum vs => add sum (mul (fst vs) (snd vs)))
              (combine a s) (of_Z 0) in
  let b := add (add dotProduct deltaM) error in
  ret (mkToyLWE s a b error dotProduct deltaM).

Definition encryptValue (val : FheDataType) : M SimulatedOpResult :=
  uuid <- crypto_randomUUID ;;
  blob <- generateCiphertext val ;;
  let encrypted :=
    mkFheValue uuid val blob ENCRYPTED ["Initial Encryption"] in
  let isObject := typeof_object val in
  (if isObject then ret tt
   else _ <- generateToyLWE (as_number val) (of_Z 100) ;; ret tt) ;;
  ret (mkResult encrypted
         (if isObject
          then "Encrypted Patient Vitals Vector. Each parameter (HR, BP, Temp) is individually encrypted but bundled."
          else "Encrypted Scalar Value using TFHE scheme.")).

(** Specialist Physician (Agent C): the value [newVal] ends up with. *)
Definition diagnosis_score (v : PatientVitals) : number :=
  let score := of_Z 0 in
  let score :=
    if gt (heartRate v) (of_Z 100) || lt (heartRate v) (of_Z 50)
    then add score (of_Z 20) else score in
  let score :=
    if gt (systolic v) (of_Z 140) then add score (of_Z 20) else score in
  let score :=
    if gt (temperature v) (lit 375 10) then add score (of_Z 25) else score in
  let score :=
    if lt (oxygenSat v) (of_Z 95) then add score (of_Z 30) else score in
  add score (mul (symptomSeverity v) (lit 3 10)).

(** [typeof a.rawValue === 'object' && 'heartRate' in a.rawValue] holds of
    the vitals record alone; a scalar and a credit profile take the other
    branch. *)
Definition diagnosis_newVal (raw : FheDataType) : number :=
  match raw with
  | Vitals v => Math_min (of_Z 99) (Math_floor (diagnosis_score v))
  | _ => Math_min (of_Z 99) (Math_floor (mul (as_number raw) (lit 15 10)))
  end.

Definition homomorphicDiagnosis (a : FheValue) : M SimulatedOpResult :=
  let newVal := diagnosis_newVal (rawValue a) in
  blob <- generateCiphertext (Scalar newVal) ;;
  let result :=
    mkFheValue (id a) (Scalar newVal) blob PROCESSED
               (history a ++ ["Specialist Diagnosis (NN)"]) in
  ret (mkResult result
         "Specialist executed an encrypted Neural Network inference layer using Programmable Bootstrapping (PBS).").

(** Medical Lab (Agent D) *)
Definition lab_variance (v : PatientVitals) : number :=
  let d_hr := Math_pow2 (sub (heartRate v) (of_Z 70)) in
  let d_sys := Math_pow2 (sub (systolic v) (of_Z 120)) in
  let d_o2 := mul (Math_pow2 (sub (oxygenSat v) (of_Z 98))) (of_Z 5) in
  Math_sqrt (add (add d_hr d_sys) d_o2).

Definition lab_newVal (raw : FheDataType) : number :=
  match raw with
  | Vitals v => Math_min (of_Z 100) (Math_floor (lab_variance v))
  | _ => Math_min (of_Z 100) (Math_floor (mul (as_number raw) (lit 12 10)))
  end.

Definition homomorphicLabAnalysis (a : FheValue) : M SimulatedOpResult :=
  let newVal := lab_newVal (rawValue a) in
  blob <- generateCiphertext (Scalar newVal) ;;
  let result :=
    mkFheValue (id a) (Scalar newVal) blob PROCESSED
               (history a ++ ["Lab Analysis (Stats)"]) in
  ret (mkResult result
         "Medical Lab performed homomorphic statistical analysis (Variance Calculation) to detect anomalies.").

(** Billing (Agent E) *)
Definition billing_cost (raw : FheDataType) : M number :=
  if typeof_object raw
  then r <- Math_random ;;
       ret (add (of_Z 150) (Math_floor (mul r (of_Z 50))))
  else ret (of_Z 50).

Definition homomorphicBilling (a : FheValue) : M SimulatedOpResult :=
  cost <- billing_cost (rawValue a) ;;
  blob <- generateCiphertext (Scalar cost) ;;
  let result :=
    mkFheValue (id a) (Scalar cost) blob PROCESSED
               (history a ++ ["Billing Generated"]) in
  ret (mkResult result
         "Billing Agent calculated total cost securely. Patient financial info never exposed.").

(** Human Doctor: the spread copies every field, only [history] is
    overridden. *)
Definition humanDoctorReview (a : FheValue) : M SimulatedOpResult :=
  let result :=
    mkFheValue (id a) (rawValue a) (encryptedBlob a) (state a)
               (history a ++ ["Human Doctor Approved"]) in
  ret (mkResult result
         "Human Doctor reviewed case in Trusted Execution Environment (TEE).").

(** The four participant transforms, and a chain of them as the
    orchestrator runs it: each step takes the envelope the previous one
    returned. *)
Inductive Transform : Type :=
| Diagnosis | LabAnalysis | Billing | DoctorReview.

Definition apply_transform (t : Transform) (a : FheValue)
  : M SimulatedOpResult :=
  match t with
  | Diagnosis => homomorphicDiagnosis a
  | LabAnalysis => homomorphicLabAnalysis a
  | Billing => homomorphicBilling a
  | DoctorReview => humanDoctorReview a
  end.

(** The label a transform appends to the history. *)
Definition transform_label (t : Transform) : string :=
  match t with
  | Diagnosis => "Specialist Diagnosis (NN)"
  | LabAnalysis => "Lab Analysis (Stats)"
  | Billing => "Billing Generated"
  | DoctorReview => "Human Doctor Approved"
  end.

Fixpoint run_chain (ts : list Transform) (a : FheValue) : M FheValue :=
  match ts with
  | [] => ret a
  | t :: ts' => r <- apply_transform t a ;; run_chain ts' (value r)
  end.

Definition fresh_chain (raw : FheDataType) (ts : list Transform)
  : M FheValue :=
  r <- encryptValue raw ;; run_chain ts (value r).

(** Every envelope along a chain, the fresh one first. *)
Fixpoint trace_chain (ts : list Transform) (a : FheValue)
  : M (list FheValue) :=
  match ts with
  | [] => ret [a]
  | t :: ts' =>
      r <- apply_transform t a ;;
      rest <- trace_chain ts' (value r) ;;
      ret (a :: rest)
  end.

Definition fresh_trace (raw : FheDataType) (ts : list Transform)
  : M (list FheValue) :=
  r <- encryptValue raw ;; trace_chain ts (value r).

(** The ordering PLAINTEXT, ENCRYPTED, PROCESSED, DECRYPTED. *)
Definition state_rank (s : EncryptionState) : nat :=
  match s with
  | PLAINTEXT => 0 | ENCRYPTED => 1 | PROCESSED => 2 | DECRYPTED => 3
  end.

(** The transforms that compute a score or a cost, and what a transform
    reads of the ambient sources. *)
Definition is_scoring (t : Transform) : bool :=
  match t with DoctorReview => false | _ => true end.

Definition random_draws (t : Transform) (a : FheValue) : nat :=
  match t with
  | DoctorReview => 0
  | Billing => if typeof_object (rawValue a) then 2 else 1
  | _ => 1
  end.

Definition clock_reads (t : Transform) : nat :=
  if is_scoring t then 1 else 0.

End FheSimulation.

(** ** services/geminiService.ts *)

Module GeminiService.

Local Open Scope string_scope.

(** A thrown value: an [Error] with its message. *)
Inductive js_error : Type :=
| Error (message : string).

(** A computation that returns or throws; [await] of a rejected promise
    throws inside the [async] function. *)
Definition Exc : Type -> Type := sum js_error.

(** Modelled from the spec: [LogEntry] is declared in [types.ts], which is
    not among the sources; these are the fields of section 3 that
    [analyzeProtocolStep] reads. *)
Record LogEntry : Type := mkLogEntry {
  source : string;
  action : string;
  details : string
}.

(** A parsed JSON value. *)
Inductive json : Type :=
| JNull
| JBool (b : bool)
| JNumber (n : JS.number)
| JString (s : string)
| JArray (items : list json)
| JObject (fields : list (string * json)).

(** What the function reaches outside the module: the environment
    variable, the hosted model behind [ai.models.generateContent] (it
    rejects, or resolves to a response whose [text] may be undefined) and
    [JSON.parse] (it throws on malformed text). *)
Record Collaborators : Type := mkCollaborators {
  API_KEY : option string;
  generateContent : string -> string -> Exc (option string);
  JSON_parse : string -> Exc json
}.

(** [!s] for a value that is a string or undefined. *)
Definition falsy (s : option string) : bool :=
  match s with
  | None => true
  | Some t => String.eqb t ""
  end.

(** [getClient]: the client is the key it was built with. *)
Definition getClient (c : Collaborators) : Exc string :=
  if falsy (API_KEY c) then raise (Error "API Key not found")
  else match API_KEY c with
       | Some k => ret k
       | None => raise (Error "API Key not found")
       end.

Definition newline : string := String "010"%char "".
Definition dquote : string := String "034"%char "".

Definition logsContext (lastLogs : list LogEntry) : string :=
  String.concat newline
    (map (fun l => "[" ++ source l ++ "] " ++ action l ++ ": " ++ details l)
         lastLogs).

Definition prompt (lastLogs : list LogEntry) : string :=
  String.concat ""
    [newline;
     "        You are a Cryptography Auditor specializing in Fully Homomorphic Encryption (FHE) and ZAMA protocols.";
     newline;
     "        Analyze the following recent protocol activity log between two Agents (Client and Server).";
     newline;
     "        ";
     newline;
     "        Explain strictly in 2-3 short sentences what is happening mathematically or securely. ";
     newline;
     "        Focus on privacy guarantees (e.g., ";
     dquote;
     "The server performed addition without seeing the input";
     dquote;
     ").";
     newline;
     "        ";
     newline;
     "        Logs:";
     newline;
     "        ";
     logsContext lastLogs;
     newline;
     "        "].

Definition fallback : json :=
  JObject
    [("analysis",
      JString "Unable to contact verification oracle. Protocol continuing in trustless mode.");
     ("securityScore", JNumber (JS.of_Z 50))].

(** The body of the [try] block. *)
Definition analyze_body (c : Collaborators) (lastLogs : list LogEntry)
  : Exc (option json) :=
  ai <- getClient c ;;
  text <- generateContent c ai (prompt lastLogs) ;;
  if falsy text then ret None
  else match text with
       | Some t => v <- JSON_parse c t ;; ret (Some v)
       | None => ret None
       end.

(** [analyzeProtocolStep]: whatever the body throws is caught, logged and
    replaced by the fallback object. *)
Definition analyzeProtocolStep (c : Collaborators) (lastLogs : list LogEntry)
  : Exc (option json) :=
  catch (analyze_body c lastLogs) (fun _ => ret (Some fallback)).




End GeminiService.

(** ** components/EncryptionVisualizer.tsx

    What the component decides: which of its four views it returns and the
    data that view shows.  The markup around them is not modelled. *)

Module EncryptionVisualizer.

Import JS Types.
Local Open Scope string_scope.

Record HealthRating : Type := mkRating {
  rating_text : string;
  rating_color : string;
  rating_bg : string;
  rating_border : string;
  rating_desc : string
}.

Definition getHealthRating (score : number) : HealthRating :=
  if lt score (of_Z 30)
  then mkRating "LOW PRIORITY" "text-green-400" "bg-green-500"
                "border-green-500" "Routine"
  else if lt score (of_Z 60)
  then mkRating "MODERATE" "text-yellow-400" "bg-yellow-500"
                "border-yellow-500" "Monitor"
  else if lt score (of_Z 85)
  then mkRating "HIGH PRIORITY" "text-orange-400" "bg-orange-500"
                "border-orange-500" "Urgent"
  else mkRating "CRITICAL" "text-red-500" "bg-red-600" "border-red-600"
                "Immediate".

Inductive Icon : Type := AlertTriangle | CheckCircle2.

Inductive View : Type :=
| VitalsDashboard (v : PatientVitals)
| ScoreCard (label : string) (score : number) (rating : HealthRating)
            (icon : Icon)
| EncryptedView (badge caption : string)
| NoVisualization.

Definition is_score_label (label : option string) : bool :=
  match label with
  | Some l => String.eqb l "URGENCY INDEX" || String.eqb l "ANOMALY SCORE"
  | None => false
  end.

(** [state === PLAINTEXT || state === DECRYPTED] and
    [state === ENCRYPTED || state === PROCESSED] *)
Definition readable (state : EncryptionState) : bool :=
  match state with PLAINTEXT | DECRYPTED => true | _ => false end.

Definition concealed (state : EncryptionState) : bool :=
  match state with ENCRYPTED | PROCESSED => true | _ => false end.

Definition isNumeric (value : FheDataType) : bool :=
  match value with Scalar _ => true | _ => false end.

Definition isVitals (value : FheDataType) : bool :=
  match value with Vitals _ => true | _ => false end.

(** The component body after the canvas effect: the three guarded returns
    in their order, then the fallback. *)
Definition render (value : FheDataType) (state : EncryptionState)
           (label : option string) : View :=
  if isVitals value && readable state
  then match value with
       | Vitals v => VitalsDashboard v
       | _ => NoVisualization
       end
  else if isNumeric value && is_score_label label && readable state
  then match value, label with
       | Scalar score, Some l =>
           ScoreCard l score (getHealthRating score)
                     (if gt score (of_Z 80) then AlertTriangle
                      else CheckCircle2)
       | _, _ => NoVisualization
       end
  else if concealed state
  then EncryptedView
         (match state with PROCESSED => "COMPUTING..." | _ => "ENCRYPTED" end)
         (if isVitals value then "Encrypted Vitals Vector"
          else "1024-bit TFHE Ciphertext")
  else NoVisualization.

End EncryptionVisualizer.

(** ** [ProtocolLog]: the time shown before a log entry *)

Module ProtocolLog.

Local Open Scope string_scope.

(** [s.split(sep)] for a separator of one character. *)
Fixpoint split (sep : ascii) (s : string) : list string :=
  match s with
  | EmptyString => [EmptyString]
  | String c s' =>
      if Ascii.eqb c sep then EmptyString :: split sep s'
      else match split sep s' with
           | h :: t => String c h :: t
           | [] => [String c EmptyString]
           end
  end.

(** [log.timestamp.split('T')[1].slice(0, 8)].  Indexing an array past its
    end gives undefined, and reading [slice] of undefined throws a
    TypeError: that is [None]. *)
Definition timeOfEntry (timestamp : string) : option string :=
  match nth_error (split "T"%char timestamp) 1 with
  | Some t => Some (substring 0 8 t)
  | None => None
  end.

(** [s.includes(c)] *)
Definition includes (c : ascii) (s : string) : bool :=
  existsb (Ascii.eqb c) (list_ascii_of_string s).

End ProtocolLog.

(** ** The rules as the specification words them *)

Module Spec.

Import JS Types.

(** The bracket [[c]] of a condition: 1 when it holds, 0 otherwise. *)
Definition indicator (b : bool) : number := if b then of_Z 1 else of_Z 0.

(** Section 4.3, Diagnosis, structured payload:
    score = 20.[HR>100 or HR<50] + 20.[systolic>140] + 25.[temp>37.5]
            + 30.[oxygenSat<95] + 0.3.symptomSeverity *)
Definition diagnosis_formula (v : PatientVitals) : number :=
  add (add (add (add
    (mul (of_Z 20)
         (indicator (gt (heartRate v) (of_Z 100) || lt (heartRate v) (of_Z 50))))
    (mul (of_Z 20) (indicator (gt (systolic v) (of_Z 140)))))
    (mul (of_Z 25) (indicator (gt (temperature v) (lit 375 10)))))
    (mul (of_Z 30) (indicator (lt (oxygenSat v) (of_Z 95)))))
    (mul (lit 3 10) (symptomSeverity v)).

Definition diagnosis_vitals (v : PatientVitals) : number :=
  Math_min (of_Z 99) (Math_floor (diagnosis_formula v)).

Definition diagnosis_scalar (x : number) : number :=
  Math_min (of_Z 99) (Math_floor (mul x (lit 15 10))).

(** Section 4.3, Lab analysis, structured payload:
    d = (HR-70)^2 + (systolic-120)^2 + 5.(oxygenSat-98)^2 *)
Definition lab_d (v : PatientVitals) : number :=
  add (add (Math_pow2 (sub (heartRate v) (of_Z 70)))
           (Math_pow2 (sub (systolic v) (of_Z 120))))
      (mul (of_Z 5) (Math_pow2 (sub (oxygenSat v) (of_Z 98)))).

Definition lab_vitals (v : PatientVitals) : number :=
  Math_min (of_Z 100) (Math_floor (Math_sqrt (lab_d v))).

Definition lab_scalar (x : number) : number :=
  Math_min (of_Z 100) (Math_floor (mul x (lit 12 10))).

(** Scenario A and B of section 8. *)
Definition scenario_vitals (diastolic : number) : PatientVitals :=
  mkVitals (of_Z 110) (of_Z 150) diastolic (of_Z 38) (of_Z 90) (of_Z 40).

(** [lo <= x <= hi] *)
Definition in_interval (lo hi : Z) (x : number) : Prop :=
  le (of_Z lo) x = true /\ le x (of_Z hi) = true.

(** What [Math.random] returns: a Number in [0, 1). *)
Definition unit_draw (r : number) : Prop :=
  valid_binary prec emax r = true
  /\ le (of_Z 0) r = true
  /\ lt r (of_Z 1) = true.

(** Reading a label back.  [parse_hex] is [parseInt(h, 16)] on a string of
    hexadecimal digits. *)
Fixpoint index_of (c : ascii) (l : list ascii) (i : Z) : Z :=
  match l with
  | [] => 0
  | d :: l' => if Ascii.eqb c d then i else index_of c l' (i + 1)
  end.

Definition hex_digit_value (c : ascii) : Z :=
  index_of c (list_ascii_of_string "0123456789abcdef") 0.

Fixpoint parse_hex_from (acc : Z) (s : string) : Z :=
  match s with
  | EmptyString => acc
  | String c s' => parse_hex_from (16 * acc + hex_digit_value c) s'
  end.

Definition parse_hex (s : string) : Z := parse_hex_from 0 s.

(** The six digits of a label hold a residue modulo 2^24; 1337 is odd, and
    10967305 is its inverse modulo 2^24. *)
Definition label_modulus : Z := 2 ^ 24.

Definition read_seed (h : string) (now : Z) : Z :=
  ((parse_hex h - now) * 10967305) mod label_modulus.

(** An envelope whose payload is a whole number between [lo] and [hi], and
    whose label is well formed and gives that number back when it is read
    with the clock value [now]. *)
Definition reveals (e : FheValue) (now : Z) (noise : string) (lo hi : Z)
  : Prop :=
  exists (r : number) (k : Z) (h : string),
    rawValue e = Scalar r
    /\ to_Z r = Some k
    /\ lo <= k <= hi
    /\ encryptedBlob e = ("ct_0x" ++ h ++ "..." ++ noise)%string
    /\ String.length h = 6%nat
    /\ JSString.all_hex h = true
    /\ read_seed h now = k.

End Spec.

(** ** Sample inputs *)

Module Examples.

Import JS Ambient Types.
Local Open Scope string_scope.

(** A host where every draw of [Math.random] is 2^-12, which radix 36
    renders exactly as 0.00be29, and the clock reads 1700000000000. *)
Definition world_a : World :=
  mkWorld (fun _ => lit 1 4096) 0 (fun _ => 1700000000000) 0
          (fun _ => "3b241101-e2bb-4255-8caf-4136c566a962") 0
          (fun _ => "0.00be29").


(** The vitals of scenarios A and B, with a diastolic pressure of 95. *)
Definition vitals_a : PatientVitals := Spec.scenario_vitals (of_Z 95).


Definition envelope_of (raw : FheDataType) : FheValue :=
  mkFheValue "3b241101-e2bb-4255-8caf-4136c566a962" raw "ct_0x17c4e5...9"
             ENCRYPTED ["Initial Encryption"].

(** An envelope that carries the scalar -1. *)
Definition negative_envelope : FheValue := envelope_of (Scalar (of_Z (-1))).




Definition sample_logs : list GeminiService.LogEntry :=
  [GeminiService.mkLogEntry "CLIENT" "ENCRYPT" "Encrypted Scalar Value using TFHE scheme."].

(** The commentary service with a reply that parses, and with a response
    that carries no text. *)
Definition sound_reply : GeminiService.Collaborators :=
  GeminiService.mkCollaborators
    (Some "key")
    (fun _ _ => inr (Some "{}"))
    (fun _ => inr (GeminiService.JObject [])).

Definition silent_reply : GeminiService.Collaborators :=
  GeminiService.mkCollaborators
    (Some "key")
    (fun _ _ => inr None)
    (fun _ => inr (GeminiService.JObject [])).

(** An envelope whose payload is neither a number nor a vitals record. *)
Definition profile_envelope : FheValue :=
  envelope_of (Profile [of_Z 700; of_Z 52000]).

End Examples.

(** * Properties *)

Import JS JSString Ambient Types FheSimulation.

Arguments JS.add : simpl never.
Arguments JS.sub : simpl never.
Arguments JS.mul : simpl never.
Arguments JS.div : simpl never.
Arguments JS.of_Z : simpl never.
Arguments JS.lit : simpl never.
Arguments JS.Math_floor : simpl never.
Arguments JS.Math_min : simpl never.
Arguments JS.Math_sqrt : simpl never.
Arguments JSString.Number_toString16 : simpl never.
Arguments JSString.slice_last : simpl never.
Arguments JSString.substring_from : simpl never.

(** ** What each operation returns *)

Section Envelopes.

Variable w : World.

Lemma encryptValue_value (raw : FheDataType) :
  exists blob,
    value (run (encryptValue raw) w)
    = mkFheValue (uuid_src w (uuid_pos w)) raw blob ENCRYPTED
                 ["Initial Encryption"%string].
Proof. destruct raw; eexists; reflexivity. Qed.

Lemma homomorphicDiagnosis_value (a : FheValue) :
  exists blob,
    value (run (homomorphicDiagnosis a) w)
    = mkFheValue (id a) (Scalar (diagnosis_newVal (rawValue a))) blob PROCESSED
                 (history a ++ ["Specialist Diagnosis (NN)"%string]).
Proof. eexists; reflexivity. Qed.

Lemma homomorphicLabAnalysis_value (a : FheValue) :
  exists blob,
    value (run (homomorphicLabAnalysis a) w)
    = mkFheValue (id a) (Scalar (lab_newVal (rawValue a))) blob PROCESSED
                 (history a ++ ["Lab Analysis (Stats)"%string]).
Proof. eexists; reflexivity. Qed.

Lemma homomorphicBilling_value (a : FheValue) :
  exists blob,
    value (run (homomorphicBilling a) w)
    = mkFheValue (id a) (Scalar (run (billing_cost (rawValue a)) w)) blob
                 PROCESSED (history a ++ ["Billing Generated"%string]).
Proof. destruct a as [i [n | v | fs] b s h]; eexists; reflexivity. Qed.

Lemma humanDoctorReview_value (a : FheValue) :
  value (run (humanDoctorReview a) w)
  = mkFheValue (id a) (rawValue a) (encryptedBlob a) (state a)
               (history a ++ ["Human Doctor Approved"%string]).
Proof. reflexivity. Qed.

End Envelopes.

(** ** Threading the world *)

Lemma run_bind {A B : Type} (m : M A) (f : A -> M B) (w : World) :
  runState (bind m f) w
  = runState (f (fst (runState m w))) (snd (runState m w)).
Proof. simpl. destruct (runState m w); reflexivity. Qed.

Lemma apply_transform_history (t : Transform) (a : FheValue) (w : World) :
  history (value (run (apply_transform t a) w))
  = history a ++ [transform_label t].
Proof.
  destruct t; simpl apply_transform.
  - destruct (homomorphicDiagnosis_value w a) as [b ->]; reflexivity.
  - destruct (homomorphicLabAnalysis_value w a) as [b ->]; reflexivity.
  - destruct (homomorphicBilling_value w a) as [b ->]; reflexivity.
  - rewrite humanDoctorReview_value; reflexivity.
Qed.

Lemma apply_transform_id (t : Transform) (a : FheValue) (w : World) :
  id (value (run (apply_transform t a) w)) = id a.
Proof.
  destruct t; simpl apply_transform.
  - destruct (homomorphicDiagnosis_value w a) as [b ->]; reflexivity.
  - destruct (homomorphicLabAnalysis_value w a) as [b ->]; reflexivity.
  - destruct (homomorphicBilling_value w a) as [b ->]; reflexivity.
  - rewrite humanDoctorReview_value; reflexivity.
Qed.

Lemma apply_transform_state (t : Transform) (a : FheValue) (w : World) :
  state (value (run (apply_transform t a) w))
  = match t with DoctorReview => state a | _ => PROCESSED end.
Proof.
  destruct t; simpl apply_transform.
  - destruct (homomorphicDiagnosis_value w a) as [b ->]; reflexivity.
  - destruct (homomorphicLabAnalysis_value w a) as [b ->]; reflexivity.
  - destruct (homomorphicBilling_value w a) as [b ->]; reflexivity.
  - rewrite humanDoctorReview_value; reflexivity.
Qed.

Lemma run_chain_cons (t : Transform) (ts : list Transform) (a : FheValue)
      (w : World) :
  run (run_chain (t :: ts) a) w
  = run (run_chain ts (value (run (apply_transform t a) w)))
        (snd (runState (apply_transform t a) w)).
Proof. unfold run. cbn [run_chain]. rewrite run_bind. reflexivity. Qed.

Lemma run_chain_history_length (ts : list Transform) :
  forall (a : FheValue) (w : World),
    List.length (history (run (run_chain ts a) w))
    = (List.length ts + List.length (history a))%nat.
Proof.
  induction ts as [| t ts IH]; intros a w.
  - reflexivity.
  - rewrite run_chain_cons, IH, apply_transform_history, length_app.
    simpl. lia.
Qed.

Lemma run_chain_id (ts : list Transform) :
  forall (a : FheValue) (w : World), id (run (run_chain ts a) w) = id a.
Proof.
  induction ts as [| t ts IH]; intros a w.
  - reflexivity.
  - rewrite run_chain_cons, IH. apply apply_transform_id.
Qed.

Lemma fresh_chain_unfold (raw : FheDataType) (ts : list Transform) (w : World) :
  run (fresh_chain raw ts) w
  = run (run_chain ts (value (run (encryptValue raw) w)))
        (snd (runState (encryptValue raw) w)).
Proof. unfold run, fresh_chain. rewrite run_bind. reflexivity. Qed.

(** C3: every transform returns the input's id and the input's history with
    exactly one label appended; [encryptValue] seeds the history with one
    label; after N transforms on a fresh envelope the history has N+1
    labels (and the id is still the one [encryptValue] assigned). *)
Theorem C3_history_grows_by_one :
  (forall (t : Transform) (a : FheValue) (w : World),
      let r := value (run (apply_transform t a) w) in
      id r = id a /\ exists label, history r = history a ++ [label])
  /\ (forall (raw : FheDataType) (w : World),
         history (value (run (encryptValue raw) w))
         = ["Initial Encryption"%string])
  /\ (forall (raw : FheDataType) (ts : list Transform) (w : World),
         List.length (history (run (fresh_chain raw ts) w)) = (List.length ts + 1)%nat
         /\ id (run (fresh_chain raw ts) w)
            = id (value (run (encryptValue raw) w))).
Proof.
  split; [| split].
  - intros t a w r. subst r. split.
    + apply apply_transform_id.
    + exists (transform_label t). apply apply_transform_history.
  - intros raw w. destruct (encryptValue_value w raw) as [b ->]. reflexivity.
  - intros raw ts w. rewrite fresh_chain_unfold. split.
    + rewrite run_chain_history_length.
      destruct (encryptValue_value w raw) as [b ->]. reflexivity.
    + apply run_chain_id.
Qed.

(** C5: [humanDoctorReview] returns the input's rawValue and state as they
    are, and the input's history with the one label 'Human Doctor Approved'
    appended. *)
Theorem C5_review_preserves_payload :
  forall (a : FheValue) (w : World),
    let r := value (run (humanDoctorReview a) w) in
    rawValue r = rawValue a
    /\ state r = state a
    /\ history r = history a ++ ["Human Doctor Approved"%string]
    /\ List.length (history r) = S (List.length (history a)).
Proof.
  intros a w r. subst r. rewrite humanDoctorReview_value. simpl.
  split; [| split; [| split]]; try reflexivity.
  rewrite length_app. simpl. lia.
Qed.

(** ** The state along a chain *)

Lemma trace_chain_cons (t : Transform) (ts : list Transform) (a : FheValue)
      (w : World) :
  run (trace_chain (t :: ts) a) w
  = a :: run (trace_chain ts (value (run (apply_transform t a) w)))
             (snd (runState (apply_transform t a) w)).
Proof.
  unfold run. cbn [trace_chain]. rewrite run_bind, run_bind. reflexivity.
Qed.

Lemma fresh_trace_unfold (raw : FheDataType) (ts : list Transform) (w : World) :
  run (fresh_trace raw ts) w
  = run (trace_chain ts (value (run (encryptValue raw) w)))
        (snd (runState (encryptValue raw) w)).
Proof. unfold run, fresh_trace. rewrite run_bind. reflexivity. Qed.



Lemma trace_chain_states (ts : list Transform) :
  forall (a : FheValue) (w : World),
    state a = ENCRYPTED \/ state a = PROCESSED ->
    let trace := run (trace_chain ts a) w in
    Forall (fun e => state e = ENCRYPTED \/ state e = PROCESSED) trace
    /\ Forall (fun e => (state_rank (state a) <= state_rank (state e))%nat) trace
    /\ StronglySorted Peano.le (map (fun e => state_rank (state e)) trace).
Proof.
  induction ts as [| t ts IH]; intros a w Ha trace; subst trace.
  - cbn. split; [| split].
    + constructor; [assumption | constructor].
    + constructor; [lia | constructor].
    + constructor; constructor.
  - rewrite trace_chain_cons.
    set (a' := value (run (apply_transform t a) w)).
    assert (Hstep : state a' = PROCESSED \/ state a' = state a).
    { subst a'. rewrite apply_transform_state. destruct t; auto. }
    assert (Ha' : state a' = ENCRYPTED \/ state a' = PROCESSED).
    { destruct Hstep as [-> | ->]; auto. }
    assert (Hrank : (state_rank (state a) <= state_rank (state a'))%nat).
    { destruct Hstep as [-> | ->]; [| lia]. destruct Ha as [-> | ->]; simpl; lia. }
    destruct (IH a' (snd (runState (apply_transform t a) w)) Ha')
      as (Hcore & Hge & Hsorted).
    assert (Hge' : Forall (fun e => (state_rank (state a) <= state_rank (state e))%nat)
                          (run (trace_chain ts a')
                               (snd (runState (apply_transform t a) w)))).
    { eapply Forall_impl; [| exact Hge]. simpl. intros e He. lia. }
    split; [| split].
    + constructor; assumption.
    + constructor; [lia | assumption].
    + simpl. constructor; [assumption |].
      rewrite Forall_map. exact Hge'.
Qed.


(** C10: whatever the payload of the input, the envelope returned by
    diagnosis, lab analysis or billing carries a scalar number (the computed
    score or cost); [encryptValue] and [humanDoctorReview] return the payload
    they were given, structured or not. *)
Theorem C10_transforms_return_scalars :
  (forall (a : FheValue) (w : World),
      rawValue (value (run (homomorphicDiagnosis a) w))
      = Scalar (diagnosis_newVal (rawValue a))
      /\ rawValue (value (run (homomorphicLabAnalysis a) w))
         = Scalar (lab_newVal (rawValue a))
      /\ rawValue (value (run (homomorphicBilling a) w))
         = Scalar (run (billing_cost (rawValue a)) w))
  /\ (forall (t : Transform) (a : FheValue) (w : World),
         t = DoctorReview
         \/ typeof_object (rawValue (value (run (apply_transform t a) w))) = false)
  /\ (forall (raw : FheDataType) (w : World),
         rawValue (value (run (encryptValue raw) w)) = raw)
  /\ (forall (a : FheValue) (w : World),
         rawValue (value (run (humanDoctorReview a) w)) = rawValue a).
Proof.
  split; [| split; [| split]].
  - intros a w. split; [| split].
    + destruct (homomorphicDiagnosis_value w a) as [b ->]; reflexivity.
    + destruct (homomorphicLabAnalysis_value w a) as [b ->]; reflexivity.
    + destruct (homomorphicBilling_value w a) as [b ->]; reflexivity.
  - intros t a w. destruct t; [right | right | right | left; reflexivity];
      simpl apply_transform.
    + destruct (homomorphicDiagnosis_value w a) as [b ->]; reflexivity.
    + destruct (homomorphicLabAnalysis_value w a) as [b ->]; reflexivity.
    + destruct (homomorphicBilling_value w a) as [b ->]; reflexivity.
  - intros raw w. destruct (encryptValue_value w raw) as [b ->]. reflexivity.
  - intros a w. rewrite humanDoctorReview_value. reflexivity.
Qed.

(** ** The commentary service *)

Import GeminiService.

Lemma analyzeProtocolStep_cases (c : Collaborators) (lastLogs : list LogEntry) :
  analyzeProtocolStep c lastLogs
  = match analyze_body c lastLogs with
    | inl _ => inr (Some fallback)
    | inr r => inr r
    end.
Proof.
  unfold analyzeProtocolStep. simpl.
  destruct (analyze_body c lastLogs); reflexivity.
Qed.


Lemma falsy_Some (t : string) : t <> ""%string -> falsy (Some t) = false.
Proof.
  intros Ht. simpl. destruct (String.eqb_spec t ""); [contradiction | reflexivity].
Qed.

Lemma getClient_key (c : Collaborators) (k : string) :
  API_KEY c = Some k -> k <> ""%string -> getClient c = inr k.
Proof.
  unfold getClient. intros -> Hk. rewrite (falsy_Some k Hk). reflexivity.
Qed.


(** ** Diagnosis and lab analysis against the formulas of the specification *)

Lemma mul_comm (x y : number) : mul x y = mul y x.
Proof.
  unfold mul, SFmul.
  destruct x as [sx | sx | | sx mx ex], y as [sy | sy | | sy my ey];
    try reflexivity; try (rewrite (xorb_comm sx sy); reflexivity).
  rewrite (xorb_comm sx sy), (Pos.mul_comm mx my), (Z.add_comm ex ey).
  reflexivity.
Qed.

Lemma diagnosis_score_formula (v : PatientVitals) :
  diagnosis_score v = Spec.diagnosis_formula v.
Proof.
  unfold diagnosis_score, Spec.diagnosis_formula, Spec.indicator.
  rewrite (mul_comm (symptomSeverity v)).
  destruct (gt (heartRate v) (of_Z 100) || lt (heartRate v) (of_Z 50)),
           (gt (systolic v) (of_Z 140)),
           (gt (temperature v) (lit 375 10)),
           (lt (oxygenSat v) (of_Z 95));
    f_equal; vm_compute; reflexivity.
Qed.

Lemma lab_variance_formula (v : PatientVitals) :
  lab_variance v = Math_sqrt (Spec.lab_d v).
Proof.
  unfold lab_variance, Spec.lab_d.
  rewrite (mul_comm (of_Z 5)). reflexivity.
Qed.

(** C1: on a vitals record [homomorphicDiagnosis] sets the new rawValue to
    min(99, floor(20.[HR>100 or HR<50] + 20.[systolic>140] + 25.[temp>37.5]
    + 30.[oxygenSat<95] + 0.3.symptomSeverity)), on a scalar v to
    min(99, floor(v.1.5)); the vitals of scenario A yield 99. *)
Theorem C1_diagnosis_rule :
  forall (a : FheValue) (w : World),
    (forall v, rawValue a = Vitals v ->
               rawValue (value (run (homomorphicDiagnosis a) w))
               = Scalar (Spec.diagnosis_vitals v))
    /\ (forall x, rawValue a = Scalar x ->
                  rawValue (value (run (homomorphicDiagnosis a) w))
                  = Scalar (Spec.diagnosis_scalar x))
    /\ (forall d, rawValue a = Vitals (Spec.scenario_vitals d) ->
                  rawValue (value (run (homomorphicDiagnosis a) w))
                  = Scalar (of_Z 99)).
Proof.
  intros a w.
  destruct (homomorphicDiagnosis_value w a) as [b ->]. simpl rawValue.
  split; [| split].
  - intros v ->. cbn [diagnosis_newVal]. unfold Spec.diagnosis_vitals.
    rewrite diagnosis_score_formula. reflexivity.
  - intros x ->. cbn [diagnosis_newVal as_number]. reflexivity.
  - intros d ->. apply f_equal. vm_compute. reflexivity.
Qed.

(** C2: on a vitals record [homomorphicLabAnalysis] sets the new rawValue to
    min(100, floor(sqrt((HR-70)^2 + (systolic-120)^2 + 5.(oxygenSat-98)^2))),
    on a scalar v to min(100, floor(v.1.2)); the vitals of scenario B give
    d = 2820 and the result 53. *)
Theorem C2_lab_rule :
  forall (a : FheValue) (w : World),
    (forall v, rawValue a = Vitals v ->
               rawValue (value (run (homomorphicLabAnalysis a) w))
               = Scalar (Spec.lab_vitals v))
    /\ (forall x, rawValue a = Scalar x ->
                  rawValue (value (run (homomorphicLabAnalysis a) w))
                  = Scalar (Spec.lab_scalar x))
    /\ (forall d, rawValue a = Vitals (Spec.scenario_vitals d) ->
                  Spec.lab_d (Spec.scenario_vitals d) = of_Z 2820
                  /\ rawValue (value (run (homomorphicLabAnalysis a) w))
                     = Scalar (of_Z 53)).
Proof.
  intros a w.
  destruct (homomorphicLabAnalysis_value w a) as [b ->]. simpl rawValue.
  split; [| split].
  - intros v ->. cbn [lab_newVal]. unfold Spec.lab_vitals.
    rewrite lab_variance_formula. reflexivity.
  - intros x ->. cbn [lab_newVal as_number]. reflexivity.
  - intros d ->. split; [| apply f_equal]; vm_compute; reflexivity.
Qed.

(** ** Rounding in binary64

    What the properties below need of [SFmul] and of the conversion from
    integers:
    the sign of a rounded result and a bound on its magnitude. *)

Lemma digits2_pos_size (m : positive) : digits2_pos m = Pos.size m.
Proof. induction m; simpl; congruence. Qed.

Lemma digits2_log2 (m : positive) :
  Zpos (digits2_pos m) = Z.log2 (Zpos m) + 1.
Proof.
  rewrite digits2_pos_size. destruct m; simpl; try reflexivity; lia.
Qed.

Lemma digits2_bounds (m : positive) :
  2 ^ (Zpos (digits2_pos m) - 1) <= Zpos m < 2 ^ Zpos (digits2_pos m).
Proof.
  rewrite digits2_log2.
  replace (Z.log2 (Zpos m) + 1 - 1) with (Z.log2 (Zpos m)) by lia.
  apply Z.log2_spec. lia.
Qed.

Lemma iter_pos_nat {A : Type} (f : A -> A) (p : positive) (x : A) :
  iter_pos f p x = Nat.iter (Pos.to_nat p) f x.
Proof.
  transitivity (Pos.iter f x p); [| apply Pos2Nat.inj_iter]. revert x.
  induction p as [p IH | p IH |]; intros x; simpl.
  - rewrite IH, IH, !Pos.iter_swap. reflexivity.
  - rewrite IH, IH. reflexivity.
  - reflexivity.
Qed.

(** One more bit shifted out. *)
Lemma shr_1_spec (mrs : shr_record) :
  0 <= shr_m mrs ->
  shr_m (shr_1 mrs) = shr_m mrs / 2
  /\ shr_m mrs = 2 * shr_m (shr_1 mrs) + Z.b2z (shr_r (shr_1 mrs)).
Proof.
  destruct mrs as [m r s]. simpl shr_m at 1 2 4.
  intros Hm.
  destruct m as [| [p | p |] | p]; try lia;
    cbn [shr_1 shr_m shr_r orb Z.b2z]; (split; [| lia]).
  - reflexivity.
  - apply (Z.div_unique _ _ _ 1); lia.
  - apply (Z.div_unique _ _ _ 0); lia.
  - reflexivity.
Qed.

Lemma shr_iter_spec (n : nat) (mrs : shr_record) :
  0 <= shr_m mrs ->
  let mrs' := Nat.iter n shr_1 mrs in
  0 <= shr_m mrs'
  /\ shr_m mrs' * 2 ^ Z.of_nat n <= shr_m mrs
  /\ (n <> O -> 2 * shr_m mrs' * 2 ^ Z.of_nat n
                + Z.b2z (shr_r mrs') * 2 ^ Z.of_nat n <= 2 * shr_m mrs).
Proof.
  intros Hm. induction n as [| n IH]; intros mrs'; subst mrs'.
  - simpl. split; [assumption | split; [lia | congruence]].
  - change (Nat.iter (S n) shr_1 mrs) with (shr_1 (Nat.iter n shr_1 mrs)).
    set (prev := Nat.iter n shr_1 mrs) in *.
    destruct IH as (H0 & Hle & Hhalf).
    destruct (shr_1_spec prev H0) as (Hdiv & Hdec).
    assert (Hb : 0 <= Z.b2z (shr_r (shr_1 prev)) <= 1)
      by (destruct (shr_r (shr_1 prev)); simpl; lia).
    assert (H0' : 0 <= shr_m (shr_1 prev)) by lia.
    rewrite Nat2Z.inj_succ, Z.pow_succ_r by lia.
    assert (Hp : 0 < 2 ^ Z.of_nat n) by (apply Z.pow_pos_nonneg; lia).
    set (P := 2 ^ Z.of_nat n) in *.
    set (b := Z.b2z (shr_r (shr_1 prev))) in *.
    set (m' := shr_m (shr_1 prev)) in *.
    assert (Hbp : 0 <= b * P) by nia.
    assert (Hm'P : m' * (2 * P) = shr_m prev * P - b * P) by (rewrite Hdec; ring).
    split; [assumption |]. split; [lia |]. intros _.
    replace (2 * m' * (2 * P) + b * (2 * P)) with (2 * (shr_m prev * P))
      by (rewrite Hdec; ring).
    lia.
Qed.

Lemma round_nearest_even_bounds (mrs : shr_record) :
  shr_m mrs <= round_nearest_even (shr_m mrs) (loc_of_shr_record mrs)
            <= shr_m mrs + Z.b2z (shr_r mrs).
Proof.
  destruct mrs as [m [|] [|]]; simpl; try lia.
  destruct (Z.even m); lia.
Qed.

(** One stage of [binary_round_aux]: the mantissa is shifted down to the
    exponent [fexp] asks for, when that is above the current one. *)
Lemma shr_fexp_spec (m e : Z) :
  0 <= m ->
  let r := shr_fexp prec emax m e loc_Exact in
  let e' := Z.max e (fexp prec emax (Zdigits2 m + e)) in
  let m' := round_nearest_even (shr_m (fst r)) (loc_of_shr_record (fst r)) in
  snd r = e'
  /\ 0 <= shr_m (fst r)
  /\ shr_m (fst r) * 2 ^ (e' - e) <= m
  /\ 0 <= m'
  /\ 2 * m' * 2 ^ (e' - e) <= 2 * m + 2 ^ (e' - e).
Proof.
  intros Hm r e' m'. subst r e' m'. unfold shr_fexp, shr.
  set (f := fexp prec emax (Zdigits2 m + e)).
  cbn [shr_record_of_loc].
  destruct (f - e) as [| p | p] eqn:Hn.
  - cbn [fst snd shr_m loc_of_shr_record round_nearest_even].
    replace (Z.max e f) with e by lia. rewrite Z.sub_diag. simpl. lia.
  - cbn [fst snd]. rewrite iter_pos_nat.
    pose proof (shr_iter_spec (Pos.to_nat p)
                  {| shr_m := m; shr_r := false; shr_s := false |} Hm) as Hs.
    cbv zeta in Hs.
    change (shr_m {| shr_m := m; shr_r := false; shr_s := false |}) with m in Hs.
    rewrite positive_nat_Z in Hs.
    set (mrs' := Nat.iter (Pos.to_nat p) shr_1
                   {| shr_m := m; shr_r := false; shr_s := false |}) in *.
    destruct Hs as (H0 & Hle & Hhalf).
    assert (Hnz : Pos.to_nat p <> O) by lia. specialize (Hhalf Hnz).
    pose proof (round_nearest_even_bounds mrs') as Hr.
    replace (Z.max e f) with (e + Z.pos p) by lia.
    replace (e + Z.pos p - e) with (Z.pos p) by lia.
    assert (Hp : 0 < 2 ^ Z.pos p) by (apply Z.pow_pos_nonneg; lia).
    assert (Hb : 0 <= Z.b2z (shr_r mrs') <= 1)
      by (destruct (shr_r mrs'); simpl; lia).
    repeat split; try lia; try nia.
  - cbn [fst snd shr_m loc_of_shr_record round_nearest_even].
    replace (Z.max e f) with e by lia. rewrite Z.sub_diag. simpl. lia.
Qed.

(** [binary_round_aux] on an exact non-negative mantissa: the mantissa [m1]
    after the rounding shift and the mantissa [m2] after the renormalising
    shift, with the exponents they carry. *)
Lemma binary_round_aux_spec (s : bool) (mx ex : Z) :
  0 <= mx ->
  let e1 := Z.max ex (fexp prec emax (Zdigits2 mx + ex)) in
  exists m1 m2,
    let e2 := Z.max e1 (fexp prec emax (Zdigits2 m1 + e1)) in
    binary_round_aux prec emax s mx ex loc_Exact
    = match m2 with
      | Z0 => S754_zero s
      | Zpos m =>
          if e2 <=? emax - prec then S754_finite s m e2 else S754_infinity s
      | Zneg _ => S754_nan
      end
    /\ 0 <= m1
    /\ 2 * m1 * 2 ^ (e1 - ex) <= 2 * mx + 2 ^ (e1 - ex)
    /\ 0 <= m2
    /\ m2 * 2 ^ (e2 - e1) <= m1.
Proof.
  intros Hmx e1. unfold binary_round_aux.
  pose proof (shr_fexp_spec mx ex Hmx) as H1. cbv zeta in H1.
  destruct (shr_fexp prec emax mx ex loc_Exact) as [rec1 e1'].
  cbn [fst snd] in H1. destruct H1 as (He1 & _ & _ & Hm1 & Hb1).
  fold e1 in He1, Hb1. subst e1'.
  set (m1 := round_nearest_even (shr_m rec1) (loc_of_shr_record rec1)) in *.
  pose proof (shr_fexp_spec m1 e1 Hm1) as H2. cbv zeta in H2.
  destruct (shr_fexp prec emax m1 e1 loc_Exact) as [rec2 e2'].
  cbn [fst snd] in H2. destruct H2 as (He2 & Hm2 & Hb2 & _ & _).
  exists m1, (shr_m rec2). cbv zeta. subst e2'.
  repeat split; assumption.
Qed.

(** *** Signs *)

Lemma binary_round_aux_nonneg (mx ex : Z) :
  0 <= mx ->
  le (of_Z 0) (binary_round_aux prec emax false mx ex loc_Exact) = true.
Proof.
  intros Hmx.
  destruct (binary_round_aux_spec false mx ex Hmx) as (m1 & m2 & Hr & _ & _ & Hm2 & _).
  cbv zeta in Hr. rewrite Hr.
  destruct m2 as [| p | p]; [reflexivity | | lia].
  destruct (_ <=? _); reflexivity.
Qed.

Lemma of_Z_nonneg (q : Z) : 0 <= q -> le (of_Z 0) (of_Z q) = true.
Proof.
  intros Hq. unfold of_Z at 2, binary_normalize.
  destruct q as [| p | p]; [reflexivity | | lia].
  unfold binary_round. destruct (shl_align _ _ _) as [mz ez].
  apply binary_round_aux_nonneg. lia.
Qed.

Lemma mul_nonneg (x : number) (mc : positive) (ec : Z) :
  le (of_Z 0) x = true ->
  le (of_Z 0) (mul x (S754_finite false mc ec)) = true.
Proof.
  destruct x as [s | [|] | | [|] m e]; try discriminate; intros _.
  - reflexivity.
  - reflexivity.
  - unfold mul, SFmul. cbn [xorb]. apply binary_round_aux_nonneg. lia.
Qed.

Lemma Math_floor_nonneg (x : number) :
  le (of_Z 0) x = true -> le (of_Z 0) (Math_floor x) = true.
Proof.
  destruct x as [s | [|] | | [|] m e]; try discriminate; intros H;
    try exact H.
  unfold Math_floor. destruct (Z.leb_spec 0 e); [exact H |].
  apply of_Z_nonneg. cbn [cond_Zopp].
  apply Z.div_pos; [lia | apply Z.pow_pos_nonneg; lia].
Qed.

Lemma Math_min_interval (hi : Z) (y : number) :
  le (of_Z 0) (of_Z hi) = true ->
  le (of_Z hi) (of_Z hi) = true ->
  SFcompare (S754_zero true) (of_Z hi) <> Some Eq ->
  le (of_Z 0) y = true ->
  Spec.in_interval 0 hi (Math_min (of_Z hi) y).
Proof.
  intros H0 Hrefl Hz Hy. unfold Spec.in_interval, Math_min.
  destruct (SFcompare y (of_Z hi)) as [[| |] |] eqn:Hc.
  - destruct y as [[|] | | |]; first [contradiction | split; assumption].
  - split; [assumption |]. unfold le, SFleb. rewrite Hc. reflexivity.
  - split; assumption.
  - exfalso. unfold le, SFleb in Hy, Hrefl.
    destruct y, (of_Z hi); simpl in *; discriminate.
Qed.

(** *** A draw of [Math.random] *)

Lemma Zdigits2_upper (m d : Z) : 0 < m -> m < 2 ^ d -> Zdigits2 m <= d.
Proof.
  intros Hm Hlt. destruct m as [| p | p]; try lia. cbn [Zdigits2].
  pose proof (digits2_bounds p) as [Hlo _].
  destruct (Z_le_gt_dec (Zpos (digits2_pos p)) d) as [| Hgt]; [assumption |].
  exfalso.
  assert (0 <= d) by (destruct d; [lia | lia | simpl in Hlt; lia]).
  assert (2 ^ d <= 2 ^ (Zpos (digits2_pos p) - 1))
    by (apply Z.pow_le_mono_r; lia).
  lia.
Qed.

Lemma unit_interval_inv (m : positive) (e : Z) :
  valid_binary prec emax (S754_finite false m e) = true ->
  lt (S754_finite false m e) (of_Z 1) = true ->
  Zpos m < 2 ^ 53 /\ -1074 <= e <= -53.
Proof.
  unfold valid_binary, bounded, canonical_mantissa, fexp, SpecFloat.emin, prec, emax.
  intros Hv Hlt. apply andb_prop in Hv. destruct Hv as [Hc _].
  apply Z.eqb_eq in Hc.
  pose proof (digits2_bounds m) as [Hlo Hhi].
  set (d := Zpos (digits2_pos m)) in *.
  assert (Hd : 0 < d) by (subst d; lia).
  change (of_Z 1) with (S754_finite false 4503599627370496 (-52)) in Hlt.
  unfold lt, SFltb, SFcompare in Hlt.
  assert (He : e <= -53).
  { destruct (Z.compare_spec e (-52)) as [Heq | Hl | Hg];
      [| lia | discriminate].
    exfalso.
    destruct (Pos.compare_cont Eq m _) eqn:Hcmp; try discriminate.
    apply (proj1 (Pos.compare_lt_iff m _)) in Hcmp.
    apply Pos2Z.pos_lt_pos in Hcmp.
    assert (d = 53) by lia.
    replace (d - 1) with 52 in Hlo by lia.
    change (2 ^ 52) with 4503599627370496 in Hlo. lia. }
  split; [| lia].
  assert (d <= 53) by lia.
  assert (2 ^ d <= 2 ^ 53) by (apply Z.pow_le_mono_r; lia).
  lia.
Qed.

Lemma add_150_of_Z (k : Z) :
  0 <= k <= 49 -> add (of_Z 150) (of_Z k) = of_Z (150 + k).
Proof.
  intros Hk. rewrite <- (Z2Nat.id k) by lia.
  assert (Hn : (Z.to_nat k < 50)%nat) by lia.
  generalize dependent (Z.to_nat k). clear k Hk. intros n Hn.
  do 50 (destruct n as [| n]; [vm_compute; reflexivity |]).
  lia.
Qed.

Lemma floor_random_50 (m : positive) (e : Z) :
  Zpos m < 2 ^ 53 -> -1074 <= e <= -53 ->
  exists k, 0 <= k <= 49
            /\ Math_floor (mul (S754_finite false m e) (of_Z 50)) = of_Z k.
Proof.
  intros Hm He.
  change (of_Z 50) with (S754_finite false 7036874417766400 (-47)).
  unfold mul, SFmul. cbn [xorb].
  set (mx := Zpos (m * 7036874417766400)). set (ex := e + -47).
  assert (Hmx : mx = Zpos m * 7036874417766400)
    by (subst mx; apply Pos2Z.inj_mul).
  clearbody mx.
  change (2 ^ 53) with 9007199254740992 in Hm.
  assert (Hmx0 : 0 < mx) by lia.
  (* the powers of two in play *)
  set (E := 2 ^ (- e)).
  assert (HE : 9007199254740992 <= E).
  { subst E. change 9007199254740992 with (2 ^ 53).
    apply Z.pow_le_mono_r; lia. }
  set (T := 2 ^ (- ex)).
  assert (HT : T = 140737488355328 * E).
  { subst T E ex. replace (- (e + -47)) with (47 + - e) by lia.
    rewrite Z.pow_add_r by lia. reflexivity. }
  (* digits of the exact product *)
  assert (Hd106 : Zdigits2 mx <= 106).
  { apply Zdigits2_upper; [assumption |].
    change (2 ^ 106) with (9007199254740992 * 9007199254740992). nia. }
  assert (Hd6 : Zdigits2 mx + ex <= 6).
  { assert (Zdigits2 mx <= 53 - e); [| subst ex; lia].
    apply Zdigits2_upper; [assumption |].
    replace (53 - e) with (53 + - e) by lia. rewrite Z.pow_add_r by lia.
    fold E. change (2 ^ 53) with 9007199254740992. nia. }
  destruct (binary_round_aux_spec false mx ex (Z.lt_le_incl _ _ Hmx0))
    as (m1 & m2 & Hr & Hm1 & Hb1 & Hm2 & Hb2).
  cbv zeta in Hr, Hb1, Hb2.
  unfold fexp, SpecFloat.emin, prec, emax in Hr, Hb1, Hb2.
  set (e1 := Z.max ex (Z.max (Zdigits2 mx + ex - 53) (3 - 1024 - 53))) in *.
  set (e2 := Z.max e1 (Z.max (Zdigits2 m1 + e1 - 53) (3 - 1024 - 53))) in *.
  assert (He1 : ex <= e1 <= -47 /\ e1 - ex <= 53) by (subst e1 ex; lia).
  set (S1 := 2 ^ (e1 - ex)) in *.
  assert (HS1 : 1 <= S1 <= 9007199254740992).
  { subst S1. split.
    - change 1 with (2 ^ 0). apply Z.pow_le_mono_r; lia.
    - change 9007199254740992 with (2 ^ 53). apply Z.pow_le_mono_r; lia. }
  assert (HV1 : m1 * S1 < 50 * T) by nia.
  assert (Hd1 : Zdigits2 m1 + e1 <= 6).
  { destruct (Z.eq_dec m1 0) as [-> | Hnz]; [simpl; lia |].
    assert (Zdigits2 m1 <= 6 - e1); [| lia].
    apply Zdigits2_upper; [lia |].
    assert (HT'' : 64 * T = 2 ^ (6 - e1) * S1).
    { subst T S1. rewrite <- Z.pow_add_r by lia.
      replace (6 - e1 + (e1 - ex)) with (6 + - ex) by lia.
      rewrite Z.pow_add_r by lia. reflexivity. }
    nia. }
  assert (He2 : e1 <= e2 <= -47) by (subst e2; lia).
  set (S2 := 2 ^ (e2 - e1)) in *.
  assert (HS2 : 1 <= S2).
  { subst S2. change 1 with (2 ^ 0). apply Z.pow_le_mono_r; lia. }
  set (C := 2 ^ (- e2)).
  assert (HC : 0 < C) by (subst C; apply Z.pow_pos_nonneg; lia).
  assert (HTC : T = C * (S2 * S1)).
  { subst T C S2 S1. rewrite <- !Z.pow_add_r by lia. f_equal. lia. }
  assert (Hm2C : m2 < 50 * C).
  { assert (H1 : m2 * S2 * S1 <= m1 * S1)
      by (apply Z.mul_le_mono_nonneg_r; lia).
    apply (Z.mul_lt_mono_pos_r (S2 * S1)); [nia |].
    rewrite HTC in HV1. lia. }
  unfold prec, emax. rewrite Hr.
  destruct m2 as [| p | p]; [| | lia].
  - exists 0. split; [lia | reflexivity].
  - destruct (Z.leb_spec e2 (1024 - 53)) as [_ | Hbad]; [| lia].
    unfold Math_floor. destruct (Z.leb_spec 0 e2) as [Hbad | _]; [lia |].
    cbn [cond_Zopp]. fold C.
    exists (Zpos p / C). split; [| reflexivity].
    split.
    + apply Z.div_pos; lia.
    + assert (Zpos p / C < 50); [| lia].
      apply Z.div_lt_upper_bound; lia.
Qed.

Lemma cost_interval (k : Z) :
  0 <= k <= 49 -> Spec.in_interval 150 199 (of_Z (150 + k)).
Proof.
  intros Hk. rewrite <- (Z2Nat.id k) by lia.
  assert (Hn : (Z.to_nat k < 50)%nat) by lia.
  generalize dependent (Z.to_nat k). clear k Hk. intros n Hn.
  do 50 (destruct n as [| n]; [split; vm_compute; reflexivity |]).
  lia.
Qed.

(** A draw in [0, 1) times 50, floored and added to 150. *)
Lemma random_cost (r : number) :
  valid_binary prec emax r = true ->
  le (of_Z 0) r = true ->
  lt r (of_Z 1) = true ->
  exists k, 0 <= k <= 49
            /\ add (of_Z 150) (Math_floor (mul r (of_Z 50))) = of_Z (150 + k).
Proof.
  intros Hv H0 H1.
  destruct r as [s | s | | s m e]; try discriminate.
  - exists 0. split; [lia |]. destruct s; vm_compute; reflexivity.
  - destruct s; discriminate.
  - destruct s; [discriminate |].
    destruct (unit_interval_inv m e Hv H1) as [Hm He].
    destruct (floor_random_50 m e Hm He) as (k & Hk & ->).
    exists k. split; [assumption | apply add_150_of_Z; assumption].
Qed.

Lemma billing_cost_structured (raw : FheDataType) (w : World) :
  typeof_object raw = true ->
  run (billing_cost raw) w
  = add (of_Z 150)
        (Math_floor (mul (random_src w (random_pos w)) (of_Z 50))).
Proof. unfold billing_cost. intros ->. reflexivity. Qed.

Lemma billing_cost_scalar (x : number) (w : World) :
  run (billing_cost (Scalar x)) w = of_Z 50.
Proof. reflexivity. Qed.

(** C6: on a structured payload [homomorphicBilling] sets the new rawValue
    to 150 + floor(50 . draw); for every draw of [Math.random], a Number in
    [0, 1), that is the Number 150 + k for an integer k in [0, 49], so the
    result lies in [150, 199]. *)
Theorem C6_billing_structured_range :
  forall (a : FheValue) (w : World),
    typeof_object (rawValue a) = true ->
    let r := random_src w (random_pos w) in
    valid_binary prec emax r = true ->
    le (of_Z 0) r = true ->
    lt r (of_Z 1) = true ->
    rawValue (value (run (homomorphicBilling a) w))
    = Scalar (add (of_Z 150) (Math_floor (mul r (of_Z 50))))
    /\ exists k, 0 <= k <= 49
                 /\ rawValue (value (run (homomorphicBilling a) w))
                    = Scalar (of_Z (150 + k))
                 /\ Spec.in_interval 150 199 (of_Z (150 + k)).
Proof.
  intros a w Hobj r Hv H0 H1.
  destruct (homomorphicBilling_value w a) as [b ->]. cbn [rawValue].
  rewrite (billing_cost_structured _ w Hobj). fold r.
  split; [reflexivity |].
  destruct (random_cost r Hv H0 H1) as (k & Hk & ->).
  exists k. split; [assumption |]. split; [reflexivity |].
  apply cost_interval; assumption.
Qed.

(** C4, amended: for every scalar input v the billing result is exactly 50;
    for every scalar input v >= 0 the diagnosis result lies in [0, 99] and
    the lab analysis result in [0, 100]. *)
Theorem C4_scalar_ranges :
  forall (a : FheValue) (x : number) (w : World),
    rawValue a = Scalar x ->
    rawValue (value (run (homomorphicBilling a) w)) = Scalar (of_Z 50)
    /\ (le (of_Z 0) x = true ->
        (exists d, rawValue (value (run (homomorphicDiagnosis a) w)) = Scalar d
                   /\ Spec.in_interval 0 99 d)
        /\ (exists l, rawValue (value (run (homomorphicLabAnalysis a) w)) = Scalar l
                      /\ Spec.in_interval 0 100 l)).
Proof.
  intros a x w Hraw. split.
  - destruct (homomorphicBilling_value w a) as [b ->]. cbn [rawValue].
    rewrite Hraw. reflexivity.
  - intros Hx. split.
    + destruct (homomorphicDiagnosis_value w a) as [b ->]. cbn [rawValue].
      rewrite Hraw. eexists. split; [reflexivity |].
      cbn [diagnosis_newVal as_number].
      apply Math_min_interval; try reflexivity; [discriminate |].
      apply Math_floor_nonneg.
      change (lit 15 10) with (S754_finite false 6755399441055744 (-52)).
      apply mul_nonneg. exact Hx.
    + destruct (homomorphicLabAnalysis_value w a) as [b ->]. cbn [rawValue].
      rewrite Hraw. eexists. split; [reflexivity |].
      cbn [lab_newVal as_number].
      apply Math_min_interval; try reflexivity; [discriminate |].
      apply Math_floor_nonneg.
      change (lit 12 10) with (S754_finite false 5404319552844595 (-52)).
      apply mul_nonneg. exact Hx.
Qed.

(** ** The ciphertext label *)

Lemma is_hex_hex_digit (d : Z) : is_hex (hex_digit d) = true.
Proof.
  unfold hex_digit. generalize (Z.to_nat d). intros n.
  do 16 (destruct n as [| n]; [reflexivity |]). destruct n; reflexivity.
Qed.

Lemma hex_digits_all_hex (fuel : nat) :
  forall (n : Z) (acc : string),
    all_hex acc = true -> all_hex (hex_digits fuel n acc) = true.
Proof.
  induction fuel as [| fuel IH]; intros n acc Hacc; cbn [hex_digits].
  - exact Hacc.
  - assert (Hacc' : all_hex (String (hex_digit (n mod 16)) acc) = true)
      by (cbn [all_hex]; rewrite is_hex_hex_digit; exact Hacc).
    destruct (n / 16 =? 0); [exact Hacc' | apply IH; exact Hacc'].
Qed.

Lemma hex_digits_length_mono (fuel : nat) :
  forall (n : Z) (acc : string),
    (String.length acc <= String.length (hex_digits fuel n acc))%nat.
Proof.
  induction fuel as [| fuel IH]; intros n acc; cbn [hex_digits].
  - lia.
  - destruct (n / 16 =? 0).
    + simpl. lia.
    + etransitivity; [| apply IH]. simpl. lia.
Qed.

Lemma hex_digits_length (fuel : nat) :
  forall (k : nat) (n : Z) (acc : string),
    (k <= fuel)%nat ->
    16 ^ Z.of_nat k <= n ->
    (S k + String.length acc <= String.length (hex_digits (S fuel) n acc))%nat.
Proof.
  induction fuel as [| fuel IH]; intros k n acc Hk Hn.
  - assert (k = O) by lia. subst k.
    pose proof (hex_digits_length_mono 1 n acc) as Hmono.
    cbn [hex_digits] in *. destruct (n / 16 =? 0); simpl; lia.
  - change (hex_digits (S (S fuel)) n acc)
      with (let acc' := String (hex_digit (n mod 16)) acc in
            if n / 16 =? 0 then acc' else hex_digits (S fuel) (n / 16) acc').
    cbv zeta.
    destruct k as [| k].
    + destruct (n / 16 =? 0).
      * simpl. lia.
      * pose proof (hex_digits_length_mono (S fuel) (n / 16)
                      (String (hex_digit (n mod 16)) acc)) as Hmono.
        simpl String.length in Hmono at 1. lia.
    + assert (Hq : 16 ^ Z.of_nat k <= n / 16).
      { apply Z.div_le_lower_bound; [lia |].
        rewrite Nat2Z.inj_succ, Z.pow_succ_r in Hn by lia. lia. }
      assert (Hpos : 0 < 16 ^ Z.of_nat k) by (apply Z.pow_pos_nonneg; lia).
      destruct (Z.eqb_spec (n / 16) 0) as [Hz | _]; [lia |].
      specialize (IH k (n / 16) (String (hex_digit (n mod 16)) acc)
                     ltac:(lia) Hq).
      simpl String.length in IH at 1. lia.
Qed.

Lemma hex_of_Z_shape (n : Z) :
  16 ^ 5 <= n ->
  (6 <= String.length (hex_of_Z n))%nat /\ all_hex (hex_of_Z n) = true.
Proof.
  intros Hn. unfold hex_of_Z. split.
  - assert (Hlog : 20 <= Z.log2 n).
    { change 20 with (Z.log2 (16 ^ 5)). apply Z.log2_le_mono. exact Hn. }
    pose proof (hex_digits_length (Z.to_nat (Z.log2 n)) 5 n ""
                  ltac:(lia) Hn) as H.
    simpl String.length in H at 1. lia.
  - apply hex_digits_all_hex. reflexivity.
Qed.

Lemma substring_length (s : string) :
  forall n m : nat,
    (n + m <= String.length s)%nat -> String.length (substring n m s) = m.
Proof.
  induction s as [| c s IH]; intros n m H; simpl in H.
  - assert (n = O) by lia. assert (m = O) by lia. subst. reflexivity.
  - destruct n as [| n].
    + destruct m as [| m]; [reflexivity |].
      simpl. rewrite IH by lia. reflexivity.
    + simpl. apply IH. lia.
Qed.

Lemma substring_all_hex (s : string) :
  forall n m : nat, all_hex s = true -> all_hex (substring n m s) = true.
Proof.
  induction s as [| c s IH]; intros n m H.
  - destruct n, m; reflexivity.
  - cbn [all_hex] in H. apply andb_prop in H. destruct H as [Hc Hs].
    destruct n as [| n].
    + destruct m as [| m]; [reflexivity |].
      simpl. rewrite Hc. apply IH. exact Hs.
    + simpl. apply IH. exact Hs.
Qed.

Lemma slice_last_shape (s : string) :
  (6 <= String.length s)%nat -> all_hex s = true ->
  String.length (slice_last 6 s) = 6%nat /\ all_hex (slice_last 6 s) = true.
Proof.
  intros Hlen Hhex. unfold slice_last. split.
  - apply substring_length. lia.
  - apply substring_all_hex. exact Hhex.
Qed.

Lemma append_empty_r (s : string) : (s ++ "")%string = s.
Proof. induction s as [| c s IH]; simpl; [| rewrite IH]; reflexivity. Qed.

(** A Number that denotes a positive integer prints as that integer. *)
Lemma Number_toString16_integer (x : number) (N : Z) :
  to_Z x = Some N -> 0 < N -> Number_toString16 x = hex_of_Z N.
Proof.
  destruct x as [s | s | | s m e]; cbn [to_Z]; try discriminate.
  - intros [= <-]. lia.
  - unfold Number_toString16.
    destruct (Z.leb_spec 0 e) as [He | He].
    + intros Heq HN.
      assert (HNeq : cond_Zopp s (Z.pos m * 2 ^ e) = N) by congruence.
      clear Heq.
      assert (0 < Z.pos m * 2 ^ e)
        by (apply Z.mul_pos_pos; [lia | apply Z.pow_pos_nonneg; lia]).
      destruct s; unfold cond_Zopp in HNeq; [lia |].
      rewrite HNeq. reflexivity.
    + cbv zeta. destruct (Z.eqb_spec (Z.pos m mod 2 ^ (- e)) 0) as [Hf | Hf];
        [| discriminate].
      intros Heq HN.
      assert (HNeq : cond_Zopp s (Z.pos m / 2 ^ (- e)) = N) by congruence.
      clear Heq.
      assert (Hq : 0 <= Z.pos m / 2 ^ (- e))
        by (apply Z.div_pos; [lia | apply Z.pow_pos_nonneg; lia]).
      destruct s; unfold cond_Zopp in HNeq; [lia |].
      rewrite HNeq.
      destruct (Z.eqb_spec N 0) as [Hz | _]; [lia |].
      simpl. apply append_empty_r.
Qed.


Lemma generateCiphertext_run (value : FheDataType) (w : World) :
  run (generateCiphertext value) w
  = ("ct_0x"
     ++ slice_last 6
          (Number_toString16
             (add (mul (ciphertext_seed value) (of_Z 1337))
                  (of_Z (clock_src w (clock_pos w)))))
     ++ "..."
     ++ substring_from 7 (toString36 w (random_src w (random_pos w))))%string.
Proof. reflexivity. Qed.


(** ** The properties at sample inputs *)

Import Examples.

Lemma C1_diagnosis_rule_witness :
  rawValue (value (run (homomorphicDiagnosis (envelope_of (Vitals vitals_a)))
                       world_a))
  = Scalar (of_Z 99)
  /\ rawValue (value (run (homomorphicDiagnosis (envelope_of (Vitals vitals_a)))
                          world_a))
     = Scalar (Spec.diagnosis_vitals vitals_a)
  /\ rawValue (value (run (homomorphicDiagnosis (envelope_of (Scalar (of_Z 40))))
                          world_a))
     = Scalar (Spec.diagnosis_scalar (of_Z 40)).
Proof.
  destruct (C1_diagnosis_rule (envelope_of (Vitals vitals_a)) world_a)
    as (Hvitals & _ & Hscenario).
  destruct (C1_diagnosis_rule (envelope_of (Scalar (of_Z 40))) world_a)
    as (_ & Hscalar & _).
  split; [| split].
  - apply (Hscenario (of_Z 95)). reflexivity.
  - apply Hvitals. reflexivity.
  - apply Hscalar. reflexivity.
Defined.

Lemma C2_lab_rule_witness :
  (Spec.lab_d vitals_a = of_Z 2820
   /\ rawValue (value (run (homomorphicLabAnalysis (envelope_of (Vitals vitals_a)))
                           world_a))
      = Scalar (of_Z 53))
  /\ rawValue (value (run (homomorphicLabAnalysis (envelope_of (Vitals vitals_a)))
                          world_a))
     = Scalar (Spec.lab_vitals vitals_a)
  /\ rawValue (value (run (homomorphicLabAnalysis (envelope_of (Scalar (of_Z 40))))
                          world_a))
     = Scalar (Spec.lab_scalar (of_Z 40)).
Proof.
  destruct (C2_lab_rule (envelope_of (Vitals vitals_a)) world_a)
    as (Hvitals & _ & Hscenario).
  destruct (C2_lab_rule (envelope_of (Scalar (of_Z 40))) world_a)
    as (_ & Hscalar & _).
  split; [| split].
  - apply (Hscenario (of_Z 95)). reflexivity.
  - apply Hvitals. reflexivity.
  - apply Hscalar. reflexivity.
Defined.


(** The scalar -1 is diagnosed as -2 and analysed as -2, below both
    intervals. *)
Lemma C4_negative_scalar_counterexample :
  rawValue negative_envelope = Scalar (of_Z (-1))
  /\ rawValue (value (run (homomorphicDiagnosis negative_envelope) world_a))
     = Scalar (of_Z (-2))
  /\ ~ Spec.in_interval 0 99 (of_Z (-2))
  /\ rawValue (value (run (homomorphicLabAnalysis negative_envelope) world_a))
     = Scalar (of_Z (-2))
  /\ ~ Spec.in_interval 0 100 (of_Z (-2)).
Proof.
  split; [reflexivity |]. split; [vm_compute; reflexivity |].
  split; [intros [H _]; vm_compute in H; discriminate |].
  split; [vm_compute; reflexivity |].
  intros [H _]; vm_compute in H; discriminate.
Qed.

Lemma C4_scalar_ranges_witness :
  rawValue (value (run (homomorphicBilling (envelope_of (Scalar (of_Z 40))))
                       world_a))
  = Scalar (of_Z 50)
  /\ (exists d,
         rawValue (value (run (homomorphicDiagnosis (envelope_of (Scalar (of_Z 40))))
                              world_a)) = Scalar d
         /\ Spec.in_interval 0 99 d)
  /\ (exists l,
         rawValue (value (run (homomorphicLabAnalysis (envelope_of (Scalar (of_Z 40))))
                              world_a)) = Scalar l
         /\ Spec.in_interval 0 100 l).
Proof.
  destruct (C4_scalar_ranges (envelope_of (Scalar (of_Z 40))) (of_Z 40) world_a)
    as (Hbilling & Hrange); [reflexivity |].
  split; [exact Hbilling |].
  apply Hrange. vm_compute. reflexivity.
Defined.

Lemma C6_billing_structured_range_witness :
  exists k, 0 <= k <= 49
            /\ rawValue (value (run (homomorphicBilling (envelope_of (Vitals vitals_a)))
                                    world_a))
               = Scalar (of_Z (150 + k))
            /\ Spec.in_interval 150 199 (of_Z (150 + k)).
Proof.
  apply (C6_billing_structured_range (envelope_of (Vitals vitals_a)) world_a).
  - reflexivity.
  - vm_compute. reflexivity.
  - vm_compute. reflexivity.
  - vm_compute. reflexivity.
Defined.




(** * Further properties of the pipeline *)

(** ** The audit trail along a chain *)

Lemma run_chain_history (ts : list Transform) :
  forall (a : FheValue) (w : World),
    history (run (run_chain ts a) w) = history a ++ map transform_label ts.
Proof.
  induction ts as [| t ts IH]; intros a w.
  - cbn [map]. rewrite app_nil_r. reflexivity.
  - rewrite run_chain_cons, IH, apply_transform_history, <- app_assoc.
    reflexivity.
Qed.

(** X1: the history is append-only and records the chain: running the
    transforms [ts] on an envelope leaves its history as a prefix and adds
    the labels of [ts] in the order they ran; on a fresh envelope the
    history is the seed label followed by those labels. *)
Theorem history_records_chain :
  (forall (ts : list Transform) (a : FheValue) (w : World),
      history (run (run_chain ts a) w) = history a ++ map transform_label ts)
  /\ (forall (raw : FheDataType) (ts : list Transform) (w : World),
         history (run (fresh_chain raw ts) w)
         = "Initial Encryption"%string :: map transform_label ts).
Proof.
  split.
  - apply run_chain_history.
  - intros raw ts w. rewrite fresh_chain_unfold, run_chain_history.
    destruct (encryptValue_value w raw) as [b ->]. reflexivity.
Qed.

Lemma apply_transform_rawValue (t : Transform) (a : FheValue) (w : World) :
  if is_scoring t
  then typeof_object (rawValue (value (run (apply_transform t a) w))) = false
  else value (run (apply_transform t a) w)
       = mkFheValue (id a) (rawValue a) (encryptedBlob a) (state a)
                    (history a ++ [transform_label t]).
Proof.
  destruct t; cbn [is_scoring apply_transform].
  - destruct (homomorphicDiagnosis_value w a) as [b ->]; reflexivity.
  - destruct (homomorphicLabAnalysis_value w a) as [b ->]; reflexivity.
  - destruct (homomorphicBilling_value w a) as [b ->]; reflexivity.
  - apply humanDoctorReview_value.
Qed.

Lemma run_chain_scored (ts : list Transform) :
  forall (a : FheValue) (w : World),
    if existsb is_scoring ts
    then state (run (run_chain ts a) w) = PROCESSED
         /\ typeof_object (rawValue (run (run_chain ts a) w)) = false
    else state (run (run_chain ts a) w) = state a
         /\ rawValue (run (run_chain ts a) w) = rawValue a
         /\ encryptedBlob (run (run_chain ts a) w) = encryptedBlob a.
Proof.
  induction ts as [| t ts IH]; intros a w.
  - cbn [existsb]. repeat split.
  - rewrite run_chain_cons. cbn [existsb].
    specialize (IH (value (run (apply_transform t a) w))
                   (snd (runState (apply_transform t a) w))).
    pose proof (apply_transform_rawValue t a w) as Hraw.
    pose proof (apply_transform_state t a w) as Hstate.
    destruct (is_scoring t) eqn:Ht; cbn [orb].
    + destruct (existsb is_scoring ts).
      * exact IH.
      * destruct IH as (Hs & Hr & _). rewrite Hs, Hr, Hstate.
        split; [destruct t; try reflexivity; discriminate | exact Hraw].
    + destruct (existsb is_scoring ts).
      * exact IH.
      * destruct IH as (Hs & Hr & Hb). rewrite Hs, Hr, Hb, Hraw.
        repeat split.
Qed.

(** X2: what a chain leaves of a fresh envelope.  If none of its transforms
    is a scoring one (only human reviews ran), the state is still ENCRYPTED
    and payload and ciphertext label are those [encryptValue] made; as soon
    as one scoring transform is in the chain the final state is PROCESSED
    and the payload is a scalar, however many reviews follow. *)
Theorem chain_outcome :
  forall (raw : FheDataType) (ts : list Transform) (w : World),
    let fresh := value (run (encryptValue raw) w) in
    let final := run (fresh_chain raw ts) w in
    if existsb is_scoring ts
    then state final = PROCESSED /\ typeof_object (rawValue final) = false
    else state final = ENCRYPTED
         /\ rawValue final = raw
         /\ encryptedBlob final = encryptedBlob fresh.
Proof.
  intros raw ts w fresh final. subst fresh final.
  rewrite fresh_chain_unfold.
  pose proof (run_chain_scored ts (value (run (encryptValue raw) w))
                (snd (runState (encryptValue raw) w))) as H.
  destruct (existsb is_scoring ts); [exact H |].
  destruct H as (Hs & Hr & Hb). rewrite Hs, Hr, Hb.
  destruct (encryptValue_value w raw) as [b ->]. repeat split.
Qed.

(** X3: billing depends on what ran before it.  Whatever the envelope, once
    a scoring transform has replaced the payload by a number, billing
    charges the flat 50 and not the structured rate. *)
Theorem billing_after_scoring_is_flat :
  forall (t : Transform) (a : FheValue) (w w' : World),
    is_scoring t = true ->
    rawValue (value (run (homomorphicBilling
                            (value (run (apply_transform t a) w))) w'))
    = Scalar (of_Z 50).
Proof.
  intros t a w w' Ht.
  pose proof (apply_transform_rawValue t a w) as Hraw. rewrite Ht in Hraw.
  destruct (homomorphicBilling_value w' (value (run (apply_transform t a) w)))
    as [b ->].
  cbn [rawValue].
  destruct (rawValue (value (run (apply_transform t a) w)));
    try discriminate.
  reflexivity.
Qed.

(** ** What the operations read of the ambient sources *)

Lemma generateCiphertext_world (v : FheDataType) (w : World) :
  snd (runState (generateCiphertext v) w) = advance w 1 1 0.
Proof. reflexivity. Qed.

Lemma apply_transform_world (t : Transform) (a : FheValue) (w : World) :
  snd (runState (apply_transform t a) w)
  = advance w (random_draws t a) (clock_reads t) 0.
Proof.
  destruct t; cbn [apply_transform random_draws clock_reads is_scoring];
    try reflexivity.
  - destruct a as [i [x | v | fs] b s h]; reflexivity.
  - destruct w; reflexivity.
Qed.

Lemma advance_advance (w : World) (r c u r' c' u' : nat) :
  advance (advance w r c u) r' c' u' = advance w (r' + r) (c' + c) (u' + u).
Proof. unfold advance. cbn. f_equal; lia. Qed.

Lemma run_chain_world (ts : list Transform) :
  forall (a : FheValue) (w : World),
    exists randoms,
      snd (runState (run_chain ts a) w)
      = advance w randoms (List.length (filter is_scoring ts)) 0
      /\ (List.length (filter is_scoring ts) <= randoms
          <= 2 * List.length (filter is_scoring ts))%nat.
Proof.
  induction ts as [| t ts IH]; intros a w.
  - exists O. split; [destruct w; reflexivity | simpl; lia].
  - cbn [run_chain]. rewrite run_bind, apply_transform_world.
    destruct (IH (value (fst (runState (apply_transform t a) w)))
                 (advance w (random_draws t a) (clock_reads t) 0))
      as (n & -> & Hn).
    exists (n + random_draws t a)%nat. rewrite advance_advance.
    unfold clock_reads. cbn [filter].
    destruct t; cbn [is_scoring random_draws List.length];
      (split; [f_equal; lia |]);
      try destruct (typeof_object (rawValue a)); lia.
Qed.

(** X4: the ambient sources are only read, and in fixed amounts.  No
    operation replaces a source; [humanDoctorReview] reads none of them;
    diagnosis and lab analysis take one draw and one clock reading, billing
    one more draw on a structured payload; [encryptValue] takes one
    identifier, one clock reading and one draw, plus the five draws of the
    toy example on a scalar.  A chain reads the clock once per scoring
    transform. *)
Theorem ambient_reads :
  (forall (t : Transform) (a : FheValue) (w : World),
      snd (runState (apply_transform t a) w)
      = advance w (random_draws t a) (clock_reads t) 0)
  /\ (forall (a : FheValue) (w : World),
         snd (runState (humanDoctorReview a) w) = w)
  /\ (forall (raw : FheDataType) (w : World),
         snd (runState (encryptValue raw) w)
         = advance w (if typeof_object raw then 1 else 6) 1 1)
  /\ (forall (ts : list Transform) (a : FheValue) (w : World),
         exists randoms,
           snd (runState (run_chain ts a) w)
           = advance w randoms (List.length (filter is_scoring ts)) 0
           /\ (List.length (filter is_scoring ts) <= randoms
               <= 2 * List.length (filter is_scoring ts))%nat).
Proof.
  split; [| split; [| split]].
  - apply apply_transform_world.
  - intros a w. destruct w; reflexivity.
  - intros raw w. destruct raw; reflexivity.
  - apply run_chain_world.
Qed.

(** ** The commentary service, beyond its failures *)



(** X6: the outcomes of [analyzeProtocolStep] with a credential.  A reply
    without text, or with the empty text, gives null: the parser is not
    consulted and the fallback is not used.  A reply whose text parses gives
    the parsed value.  In every case the result is null, the fallback, or a
    value the parser returned. *)
Theorem analyze_outcomes :
  forall (c : Collaborators) (lastLogs : list LogEntry),
    (forall k text, API_KEY c = Some k -> k <> ""%string ->
                    generateContent c k (prompt lastLogs) = inr text ->
                    falsy text = true ->
                    analyzeProtocolStep c lastLogs = inr None)
    /\ (forall k t v, API_KEY c = Some k -> k <> ""%string ->
                      generateContent c k (prompt lastLogs) = inr (Some t) ->
                      t <> ""%string ->
                      JSON_parse c t = inr v ->
                      analyzeProtocolStep c lastLogs = inr (Some v))
    /\ (analyzeProtocolStep c lastLogs = inr None
        \/ analyzeProtocolStep c lastLogs = inr (Some fallback)
        \/ exists t v, JSON_parse c t = inr v
                       /\ analyzeProtocolStep c lastLogs = inr (Some v)).
Proof.
  intros c lastLogs. rewrite analyzeProtocolStep_cases.
  split; [| split].
  - intros k text Hkey Hk Hcall Htext. unfold analyze_body.
    rewrite (getClient_key c k Hkey Hk). simpl bind. rewrite Hcall, Htext.
    reflexivity.
  - intros k t v Hkey Hk Hcall Ht Hparse. unfold analyze_body.
    rewrite (getClient_key c k Hkey Hk). simpl bind.
    rewrite Hcall, (falsy_Some t Ht), Hparse. reflexivity.
  - unfold analyze_body.
    destruct (getClient c) as [e | ai]; [right; left; reflexivity |].
    simpl bind.
    destruct (generateContent c ai (prompt lastLogs)) as [e | text];
      [right; left; reflexivity |].
    destruct (falsy text) eqn:Hf; [left; reflexivity |].
    destruct text as [t |]; [| discriminate].
    destruct (JSON_parse c t) as [e | v] eqn:Hparse;
      [right; left; reflexivity |].
    right; right. exists t, v. split; [exact Hparse | reflexivity].
Qed.

(** ** The visualizer *)

Lemma render_concealed (value : FheDataType) (state : EncryptionState)
      (label : option string) :
  EncryptionVisualizer.concealed state = true ->
  EncryptionVisualizer.render value state label
  = EncryptionVisualizer.EncryptedView
      (match state with
       | PROCESSED => "COMPUTING..."%string
       | _ => "ENCRYPTED"%string
       end)
      (if EncryptionVisualizer.isVitals value
       then "Encrypted Vitals Vector"%string
       else "1024-bit TFHE Ciphertext"%string).
Proof.
  intros Hc. unfold EncryptionVisualizer.render. rewrite Hc.
  destruct state; try discriminate; cbn [EncryptionVisualizer.readable];
    rewrite !andb_false_r; reflexivity.
Qed.

(** X7: while an envelope is ENCRYPTED or PROCESSED the visualizer returns
    the encrypted view, whose badge is fixed by the state and whose caption
    by whether the payload is a vitals record: no number of the payload is
    shown, whatever the label.  Every envelope of a chain that starts with
    [encryptValue] is shown that way; a dashboard or a score card is
    returned in the PLAINTEXT and DECRYPTED states only. *)
Theorem concealed_payload_is_not_shown :
  (forall (value : FheDataType) (state : EncryptionState)
          (label : option string),
      EncryptionVisualizer.concealed state = true ->
      EncryptionVisualizer.render value state label
      = EncryptionVisualizer.EncryptedView
          (match state with
           | PROCESSED => "COMPUTING..."%string
           | _ => "ENCRYPTED"%string
           end)
          (if EncryptionVisualizer.isVitals value
           then "Encrypted Vitals Vector"%string
           else "1024-bit TFHE Ciphertext"%string))
  /\ (forall (raw : FheDataType) (ts : list Transform) (w : World)
             (label : option string),
         Forall (fun e => exists badge caption,
                     EncryptionVisualizer.render (rawValue e) (state e) label
                     = EncryptionVisualizer.EncryptedView badge caption)
                (run (fresh_trace raw ts) w))
  /\ (forall (value : FheDataType) (state : EncryptionState)
             (label : option string),
         match EncryptionVisualizer.render value state label with
         | EncryptionVisualizer.VitalsDashboard v =>
             value = Vitals v /\ EncryptionVisualizer.readable state = true
         | EncryptionVisualizer.ScoreCard l score _ _ =>
             value = Scalar score /\ label = Some l
             /\ EncryptionVisualizer.is_score_label label = true
             /\ EncryptionVisualizer.readable state = true
         | _ => True
         end).
Proof.
  split; [| split].
  - apply render_concealed.
  - intros raw ts w label. rewrite fresh_trace_unfold.
    set (a := value (run (encryptValue raw) w)).
    assert (Ha : state a = ENCRYPTED \/ state a = PROCESSED).
    { left. subst a. destruct (encryptValue_value w raw) as [b ->]. reflexivity. }
    destruct (trace_chain_states ts a (snd (runState (encryptValue raw) w)) Ha)
      as (Hcore & _ & _).
    eapply Forall_impl; [| exact Hcore]. cbv beta.
    intros e He. do 2 eexists. apply render_concealed.
    destruct He as [-> | ->]; reflexivity.
  - intros value state label. unfold EncryptionVisualizer.render.
    destruct value as [x | v | fs]; cbn [EncryptionVisualizer.isVitals
      EncryptionVisualizer.isNumeric andb];
      destruct (EncryptionVisualizer.readable state) eqn:Hr;
      rewrite ?andb_true_r, ?andb_false_r;
      try (destruct (EncryptionVisualizer.concealed state); exact I);
      try (split; reflexivity).
    destruct (EncryptionVisualizer.is_score_label label) eqn:Hl.
    + destruct label as [l |]; [| discriminate]. repeat split; assumption.
    + destruct (EncryptionVisualizer.concealed state); exact I.
Qed.

Lemma rating_text_critical_inv (score : number) :
  EncryptionVisualizer.rating_text (EncryptionVisualizer.getHealthRating score)
  = "CRITICAL"%string ->
  lt score (of_Z 85) = false.
Proof.
  unfold EncryptionVisualizer.getHealthRating.
  destruct (lt score (of_Z 30)); [discriminate |].
  destruct (lt score (of_Z 60)); [discriminate |].
  destruct (lt score (of_Z 85)); [discriminate | reflexivity].
Qed.

Lemma not_below_85_above_80 (score : number) :
  score <> NaN -> lt score (of_Z 85) = false -> gt score (of_Z 80) = true.
Proof.
  change (of_Z 85) with (S754_finite false 5981343255101440 (-46)).
  change (of_Z 80) with (S754_finite false 5629499534213120 (-46)).
  unfold lt, gt, SFltb, SFcompare.
  destruct score as [s | [|] | | [|] m e]; intros Hnan H85;
    try discriminate; try reflexivity; try (exfalso; apply Hnan; reflexivity).
  rewrite (Z.compare_antisym e (-46)).
  destruct (Z.compare_spec e (-46)) as [He | He | He]; cbn [CompOpp];
    try discriminate; try reflexivity.
  assert (Hge : 5981343255101440 <= Z.pos m).
  { destruct (Pos.compare_cont Eq m 5981343255101440) eqn:Hc;
      try discriminate.
    - apply (proj1 (Pos.compare_eq_iff m _)) in Hc. rewrite Hc. apply Z.le_refl.
    - apply (proj1 (Pos.compare_gt_iff m _)) in Hc.
      apply Pos2Z.pos_lt_pos in Hc. apply Z.lt_le_incl. exact Hc. }
  assert (Hlt : 5629499534213120 < Z.pos m)
    by (eapply Z.lt_le_trans; [| exact Hge]; reflexivity).
  unfold Z.lt in Hlt. cbn [Z.compare] in Hlt. unfold Pos.compare in Hlt.
  rewrite Hlt. reflexivity.
Qed.

Lemma render_score_card_inv (value : FheDataType) (state : EncryptionState)
      (label : option string) (l : string) (score : number)
      (rating : EncryptionVisualizer.HealthRating)
      (icon : EncryptionVisualizer.Icon) :
  EncryptionVisualizer.render value state label
  = EncryptionVisualizer.ScoreCard l score rating icon ->
  rating = EncryptionVisualizer.getHealthRating score
  /\ icon = (if gt score (of_Z 80) then EncryptionVisualizer.AlertTriangle
             else EncryptionVisualizer.CheckCircle2).
Proof.
  unfold EncryptionVisualizer.render.
  destruct (EncryptionVisualizer.isVitals value
            && EncryptionVisualizer.readable state).
  - destruct value; discriminate.
  - destruct (EncryptionVisualizer.isNumeric value
              && EncryptionVisualizer.is_score_label label
              && EncryptionVisualizer.readable state).
    + destruct value as [x | v | fs], label as [l' |]; try discriminate.
      intros [= _ <- <- <-]. split; reflexivity.
    + destruct (EncryptionVisualizer.concealed state); discriminate.
Qed.

(** X8: the score card is consistent for numbers and not for NaN: every
    score that is a number and is rated CRITICAL is shown with the alert
    icon, while NaN, for which all three threshold tests fail, is rated
    CRITICAL and shown with the check icon. *)
Theorem critical_score_is_alerted :
  (forall (value : FheDataType) (state : EncryptionState)
          (label : option string) (l : string) (score : number)
          (rating : EncryptionVisualizer.HealthRating)
          (icon : EncryptionVisualizer.Icon),
      EncryptionVisualizer.render value state label
      = EncryptionVisualizer.ScoreCard l score rating icon ->
      EncryptionVisualizer.rating_text rating = "CRITICAL"%string ->
      score <> NaN ->
      icon = EncryptionVisualizer.AlertTriangle)
  /\ (forall (state : EncryptionState) (l : string),
         EncryptionVisualizer.readable state = true ->
         EncryptionVisualizer.is_score_label (Some l) = true ->
         exists rating,
           EncryptionVisualizer.render (Scalar NaN) state (Some l)
           = EncryptionVisualizer.ScoreCard l NaN rating
               EncryptionVisualizer.CheckCircle2
           /\ EncryptionVisualizer.rating_text rating = "CRITICAL"%string).
Proof.
  split.
  - intros value state label l score rating icon Hview Hcrit Hnan.
    destruct (render_score_card_inv _ _ _ _ _ _ _ Hview) as [-> ->].
    rewrite (not_below_85_above_80 score Hnan
               (rating_text_critical_inv score Hcrit)).
    reflexivity.
  - intros state l Hr Hl. eexists. unfold EncryptionVisualizer.render.
    cbn [EncryptionVisualizer.isVitals EncryptionVisualizer.isNumeric andb].
    rewrite Hl, Hr. split; reflexivity.
Qed.

(** ** Ranges of the scores on vitals records *)

Lemma shr_fexp_nonneg (m e : Z) (l : location) :
  0 <= m -> 0 <= shr_m (fst (shr_fexp prec emax m e l)).
Proof.
  intros Hm. unfold shr_fexp, shr.
  assert (H0 : 0 <= shr_m (shr_record_of_loc m l))
    by (destruct l as [| []]; exact Hm).
  destruct (fexp prec emax (Zdigits2 m + e) - e) as [| p | p];
    cbn [fst]; try exact H0.
  rewrite iter_pos_nat.
  exact (proj1 (shr_iter_spec (Pos.to_nat p) _ H0)).
Qed.

Lemma binary_round_aux_sign (s : bool) (mx ex : Z) (lx : location) :
  0 <= mx ->
  match binary_round_aux prec emax s mx ex lx with
  | S754_zero s' | S754_infinity s' | S754_finite s' _ _ => s' = s
  | S754_nan => False
  end.
Proof.
  intros Hmx. unfold binary_round_aux.
  pose proof (shr_fexp_nonneg mx ex lx Hmx) as H1.
  destruct (shr_fexp prec emax mx ex lx) as [rec1 e1]. cbn [fst] in H1.
  pose proof (round_nearest_even_bounds rec1) as [Hr _].
  set (m1 := round_nearest_even (shr_m rec1) (loc_of_shr_record rec1)) in *.
  pose proof (shr_fexp_nonneg m1 e1 loc_Exact ltac:(lia)) as H2.
  destruct (shr_fexp prec emax m1 e1 loc_Exact) as [rec2 e2]. cbn [fst] in H2.
  destruct (shr_m rec2) as [| p | p]; [reflexivity | | lia].
  destruct (e2 <=? emax - prec); reflexivity.
Qed.

Lemma binary_normalize_not_nan (m e : Z) (szero : bool) :
  binary_normalize prec emax m e szero <> S754_nan.
Proof.
  unfold binary_normalize, binary_round.
  destruct m as [| p | p]; [discriminate | |];
    destruct (shl_align _ _ _) as [mz ez];
    match goal with
    | |- binary_round_aux _ _ ?s ?mx ?ex _ <> _ =>
        pose proof (binary_round_aux_sign s mx ex loc_Exact ltac:(lia)) as H;
        destruct (binary_round_aux prec emax s mx ex loc_Exact);
        [discriminate | discriminate | contradiction | discriminate]
    end.
Qed.

Lemma nonneg_of_sign (x : number) :
  match x with
  | S754_zero _ => True
  | S754_infinity s' | S754_finite s' _ _ => s' = false
  | S754_nan => False
  end ->
  le (of_Z 0) x = true.
Proof. destruct x as [s | s | | s m e]; try intros ->; try reflexivity; contradiction. Qed.

Lemma add_nonneg (x y : number) :
  le (of_Z 0) x = true -> le (of_Z 0) y = true -> le (of_Z 0) (add x y) = true.
Proof.
  destruct x as [sx | [|] | | [|] mx ex]; try discriminate;
    destruct y as [sy | [|] | | [|] my ey]; try discriminate; intros _ _;
    try reflexivity.
  - destruct sx, sy; reflexivity.
  - unfold add, SFadd. cbn [cond_Zopp].
    destruct (shl_align mx ex (Z.min ex ey)) as [mx' ex'].
    destruct (shl_align my ey (Z.min ex ey)) as [my' ey']. cbn [fst].
    change (Z.pos mx' + Z.pos my') with (Z.pos (mx' + my')).
    unfold binary_normalize, binary_round.
    destruct (shl_align _ _ _) as [mz ez].
    apply binary_round_aux_nonneg. lia.
Qed.

Lemma sub_not_nan (x : number) (s : bool) (m : positive) (e : Z) :
  x <> NaN -> sub x (S754_finite s m e) <> NaN.
Proof.
  intros Hx. unfold sub, SFsub.
  destruct x as [sx | sx | | sx mx ex]; try discriminate;
    [contradiction |].
  apply binary_normalize_not_nan.
Qed.

Lemma square_nonneg (x : number) :
  x <> NaN -> le (of_Z 0) (Math_pow2 x) = true.
Proof.
  intros Hx. unfold Math_pow2, mul.
  destruct x as [s | s | | s m e]; [| | contradiction |].
  - destruct s; reflexivity.
  - destruct s; reflexivity.
  - cbn [SFmul]. rewrite xorb_nilpotent. apply binary_round_aux_nonneg. lia.
Qed.

Lemma Math_sqrt_nonneg (x : number) :
  le (of_Z 0) x = true -> le (of_Z 0) (Math_sqrt x) = true.
Proof.
  destruct x as [s | [|] | | [|] m e]; try discriminate; intros H;
    try exact H.
  unfold Math_sqrt, SFsqrt, SFsqrt_core_binary.
  set (m' := match _ - _ with Z.pos _ => _ | Z0 => _ | Z.neg _ => _ end).
  assert (Hm' : 0 <= m').
  { subst m'. destruct (_ - _); [lia | | lia].
    apply Z.shiftl_nonneg. lia. }
  pose proof (Z.sqrtrem_spec m' Hm') as Hs.
  destruct (Z.sqrtrem m') as [q r].
  apply nonneg_of_sign.
  pose proof (binary_round_aux_sign false q
                (Z.min (fexp prec emax (Z.div2 (Zdigits2 (Z.pos m) + e + 1)))
                       (Z.div2 e))
                (if r =? 0 then loc_Exact
                 else loc_Inexact (if r <=? q then Lt else Gt))
                ltac:(lia)) as Hsign.
  destruct (binary_round_aux _ _ _ _ _ _); try exact I; try exact Hsign.
Qed.

Lemma Math_min_clamp (hi : Z) (y : number) :
  Math_min (of_Z hi) y = NaN \/ le (Math_min (of_Z hi) y) (of_Z hi) = true.
Proof.
  unfold Math_min.
  destruct (SFcompare y (of_Z hi)) as [[| |] |] eqn:Hc.
  - right. unfold le, SFleb.
    destruct y as [[|] | | |]; try rewrite Hc; try reflexivity;
      destruct (of_Z hi) as [? | [|] | | [|] ? ?]; try discriminate;
      simpl; try reflexivity;
      rewrite ?Z.compare_refl, ?Pos.compare_cont_refl; reflexivity.
  - right. unfold le, SFleb. rewrite Hc. reflexivity.
  - right. unfold le, SFleb.
    destruct y, (of_Z hi) as [? | [|] | | [|] ? ?]; try discriminate;
      simpl; try reflexivity;
      rewrite ?Z.compare_refl, ?Pos.compare_cont_refl; reflexivity.
  - left. reflexivity.
Qed.

Lemma diagnosis_score_nonneg (v : PatientVitals) :
  le (of_Z 0) (symptomSeverity v) = true ->
  le (of_Z 0) (diagnosis_score v) = true.
Proof.
  intros Hsev. unfold diagnosis_score.
  destruct (gt (heartRate v) (of_Z 100) || lt (heartRate v) (of_Z 50)),
           (gt (systolic v) (of_Z 140)),
           (gt (temperature v) (lit 375 10)),
           (lt (oxygenSat v) (of_Z 95));
    (apply add_nonneg;
     [vm_compute; reflexivity
     | change (lit 3 10) with (S754_finite false 5404319552844595 (-54));
       apply mul_nonneg; exact Hsev]).
Qed.

Lemma lab_variance_nonneg (v : PatientVitals) :
  heartRate v <> NaN -> systolic v <> NaN -> oxygenSat v <> NaN ->
  le (of_Z 0) (lab_variance v) = true.
Proof.
  intros Hhr Hsys Ho2. unfold lab_variance.
  change (of_Z 70) with (S754_finite false 4925812092436480 (-46)).
  change (of_Z 120) with (S754_finite false 8444249301319680 (-46)).
  change (of_Z 98) with (S754_finite false 6896136929411072 (-46)).
  change (of_Z 5) with (S754_finite false 5629499534213120 (-50)).
  apply Math_sqrt_nonneg. apply add_nonneg; [apply add_nonneg |].
  - apply square_nonneg, sub_not_nan, Hhr.
  - apply square_nonneg, sub_not_nan, Hsys.
  - apply mul_nonneg, square_nonneg, sub_not_nan, Ho2.
Qed.

(** X9: the diagnosis score is clamped.  Whatever the payload, the new
    rawValue is NaN or at most 99; on a vitals record whose symptomSeverity
    is at least 0 it lies in [0, 99], whatever the other five fields hold,
    NaN and the infinities included. *)
Theorem diagnosis_range :
  forall (a : FheValue) (w : World),
    exists r,
      rawValue (value (run (homomorphicDiagnosis a) w)) = Scalar r
      /\ (r = NaN \/ le r (of_Z 99) = true)
      /\ (forall v, rawValue a = Vitals v ->
                    le (of_Z 0) (symptomSeverity v) = true ->
                    Spec.in_interval 0 99 r).
Proof.
  intros a w. destruct (homomorphicDiagnosis_value w a) as [b ->].
  eexists. split; [reflexivity |]. split.
  - destruct (rawValue a); apply Math_min_clamp.
  - intros v -> Hsev. cbn [diagnosis_newVal].
    apply Math_min_interval; try reflexivity; [discriminate |].
    apply Math_floor_nonneg, diagnosis_score_nonneg, Hsev.
Qed.

(** X10: the lab score is clamped.  Whatever the payload, the new rawValue
    is NaN or at most 100; on a vitals record whose heartRate, systolic and
    oxygenSat are not NaN it lies in [0, 100]. *)
Theorem lab_range :
  forall (a : FheValue) (w : World),
    exists r,
      rawValue (value (run (homomorphicLabAnalysis a) w)) = Scalar r
      /\ (r = NaN \/ le r (of_Z 100) = true)
      /\ (forall v, rawValue a = Vitals v ->
                    heartRate v <> NaN -> systolic v <> NaN ->
                    oxygenSat v <> NaN ->
                    Spec.in_interval 0 100 r).
Proof.
  intros a w. destruct (homomorphicLabAnalysis_value w a) as [b ->].
  eexists. split; [reflexivity |]. split.
  - destruct (rawValue a); apply Math_min_clamp.
  - intros v -> Hhr Hsys Ho2. cbn [lab_newVal].
    apply Math_min_interval; try reflexivity; [discriminate |].
    apply Math_floor_nonneg, lab_variance_nonneg; assumption.
Qed.

(** X11: a payload that is neither a number nor a vitals record, and a
    scalar NaN, make diagnosis and lab analysis return NaN, and the label of
    the new envelope reads ct_0xNaN; billing charges such an object at the
    structured rate. *)
Theorem unscorable_payloads :
  forall (a : FheValue) (w : World),
    (exists fields, rawValue a = Profile fields) \/ rawValue a = Scalar NaN ->
    rawValue (value (run (homomorphicDiagnosis a) w)) = Scalar NaN
    /\ rawValue (value (run (homomorphicLabAnalysis a) w)) = Scalar NaN
    /\ encryptedBlob (value (run (homomorphicDiagnosis a) w))
       = ("ct_0xNaN..."
          ++ substring_from 7 (toString36 w (random_src w (random_pos w))))%string
    /\ encryptedBlob (value (run (homomorphicLabAnalysis a) w))
       = ("ct_0xNaN..."
          ++ substring_from 7 (toString36 w (random_src w (random_pos w))))%string
    /\ ((exists fields, rawValue a = Profile fields) ->
        rawValue (value (run (homomorphicBilling a) w))
        = Scalar (add (of_Z 150)
                      (Math_floor (mul (random_src w (random_pos w)) (of_Z 50))))).
Proof.
  intros a w Hraw.
  assert (Hd : diagnosis_newVal (rawValue a) = NaN)
    by (destruct Hraw as [[fs ->] | ->]; reflexivity).
  assert (Hl : lab_newVal (rawValue a) = NaN)
    by (destruct Hraw as [[fs ->] | ->]; reflexivity).
  split; [| split; [| split; [| split]]].
  - destruct (homomorphicDiagnosis_value w a) as [b ->]. cbn [rawValue].
    rewrite Hd. reflexivity.
  - destruct (homomorphicLabAnalysis_value w a) as [b ->]. cbn [rawValue].
    rewrite Hl. reflexivity.
  - unfold homomorphicDiagnosis. rewrite Hd. reflexivity.
  - unfold homomorphicLabAnalysis. rewrite Hl. reflexivity.
  - intros [fs Hp]. destruct (homomorphicBilling_value w a) as [b ->].
    cbn [rawValue]. rewrite Hp. reflexivity.
Qed.

(** ** Exact integer arithmetic in binary64 *)

Lemma dyadic_rescale (m e N K : Z) :
  0 <= K -> 0 <= e + K -> m * 2 ^ (e + K) = N * 2 ^ K ->
  forall K', K <= K' -> m * 2 ^ (e + K') = N * 2 ^ K'.
Proof.
  intros HK HeK Heq K' HK'.
  assert (H1 : 2 ^ (e + K') = 2 ^ (e + K) * 2 ^ (K' - K))
    by (rewrite <- Z.pow_add_r by lia; f_equal; lia).
  assert (H2 : 2 ^ K' = 2 ^ K * 2 ^ (K' - K))
    by (rewrite <- Z.pow_add_r by lia; f_equal; lia).
  rewrite H1, H2, !Z.mul_assoc, Heq. reflexivity.
Qed.

Lemma dyadic_inv (m e N : Z) :
  dyadic m e N ->
  (0 <= e -> N = m * 2 ^ e) /\ (e < 0 -> m = N * 2 ^ (- e)).
Proof.
  intros (K & HK & HeK & Heq). split; intros He.
  - rewrite Z.pow_add_r in Heq by lia.
    assert (0 < 2 ^ K) by (apply Z.pow_pos_nonneg; lia).
    apply (Z.mul_reg_r _ _ (2 ^ K)); [lia |]. rewrite <- Heq. ring.
  - assert (H2 : 2 ^ K = 2 ^ (- e) * 2 ^ (e + K))
      by (rewrite <- Z.pow_add_r by lia; f_equal; lia).
    rewrite H2 in Heq.
    assert (0 < 2 ^ (e + K)) by (apply Z.pow_pos_nonneg; lia).
    apply (Z.mul_reg_r _ _ (2 ^ (e + K))); [lia |]. rewrite Heq. ring.
Qed.

Lemma dyadic_intro (m e N : Z) :
  (0 <= e -> N = m * 2 ^ e) -> (e < 0 -> m = N * 2 ^ (- e)) -> dyadic m e N.
Proof.
  intros Hpos Hneg. destruct (Z_le_gt_dec 0 e) as [He | He].
  - exists 0. rewrite Z.add_0_r, Z.mul_1_r. split; [lia |]. split; [lia |].
    symmetry. apply Hpos, He.
  - exists (- e). replace (e + - e) with 0 by lia.
    rewrite Z.mul_1_r. split; [lia |]. split; [lia |]. apply Hneg. lia.
Qed.

Lemma dyadic_mul (m1 e1 N1 m2 e2 N2 : Z) :
  dyadic m1 e1 N1 -> dyadic m2 e2 N2 ->
  dyadic (m1 * m2) (e1 + e2) (N1 * N2).
Proof.
  intros (K1 & HK1 & He1 & H1) (K2 & HK2 & He2 & H2).
  exists (K1 + K2). split; [lia |]. split; [lia |].
  assert (P1 : 2 ^ (e1 + e2 + (K1 + K2)) = 2 ^ (e1 + K1) * 2 ^ (e2 + K2))
    by (rewrite <- Z.pow_add_r by lia; f_equal; lia).
  assert (P2 : 2 ^ (K1 + K2) = 2 ^ K1 * 2 ^ K2) by (apply Z.pow_add_r; lia).
  rewrite P1, P2.
  transitivity ((m1 * 2 ^ (e1 + K1)) * (m2 * 2 ^ (e2 + K2))); [ring |].
  rewrite H1, H2. ring.
Qed.

Lemma dyadic_opp (m e N : Z) : dyadic m e N -> dyadic (- m) e (- N).
Proof.
  intros (K & HK & He & H). exists K. repeat split; try assumption.
  rewrite !Z.mul_opp_l, H. reflexivity.
Qed.

(** The integer a finite Number denotes. *)
Lemma to_Z_finite (s : bool) (m : positive) (e N : Z) :
  dyadic (Zpos m) e N -> to_Z (S754_finite s m e) = Some (cond_Zopp s N).
Proof.
  intros Hd. destruct (dyadic_inv _ _ _ Hd) as [Hpos Hneg]. cbn [to_Z].
  destruct (Z.leb_spec 0 e) as [He | He].
  - rewrite (Hpos He). reflexivity.
  - rewrite (Hneg He).
    assert (0 < 2 ^ (- e)) by (apply Z.pow_pos_nonneg; lia).
    rewrite Z.mod_mul, Z.div_mul by lia. reflexivity.
Qed.

Lemma to_Z_finite_inv (s : bool) (m : positive) (e a : Z) :
  to_Z (S754_finite s m e) = Some a ->
  exists N, a = cond_Zopp s N /\ dyadic (Zpos m) e N.
Proof.
  cbn [to_Z]. destruct (Z.leb_spec 0 e) as [He | He].
  - intros Heq. exists (Zpos m * 2 ^ e). split; [congruence |].
    apply dyadic_intro; intros; [reflexivity | lia].
  - destruct (Z.eqb_spec (Zpos m mod 2 ^ (- e)) 0) as [Hmod | Hmod];
      [| discriminate].
    intros Heq. exists (Zpos m / 2 ^ (- e)). split; [congruence |].
    apply dyadic_intro; intros; [lia |].
    assert (0 < 2 ^ (- e)) by (apply Z.pow_pos_nonneg; lia).
    rewrite (Z.div_mod (Zpos m) (2 ^ (- e))) at 1 by lia.
    rewrite Hmod. ring.
Qed.

Lemma dyadic_pos (m e N : Z) : 0 < m -> dyadic m e N -> 0 < N.
Proof.
  intros Hm (K & HK & He & H).
  assert (0 < 2 ^ (e + K)) by (apply Z.pow_pos_nonneg; lia).
  assert (0 < 2 ^ K) by (apply Z.pow_pos_nonneg; lia).
  nia.
Qed.

Lemma dyadic_zero (e N : Z) : dyadic 0 e N -> N = 0.
Proof.
  intros (K & HK & He & H).
  assert (0 < 2 ^ K) by (apply Z.pow_pos_nonneg; lia).
  nia.
Qed.

Lemma dyadic_add (m1 m2 e N1 N2 : Z) :
  dyadic m1 e N1 -> dyadic m2 e N2 -> dyadic (m1 + m2) e (N1 + N2).
Proof.
  intros (K1 & HK1 & He1 & H1) (K2 & HK2 & He2 & H2).
  exists (K1 + K2). split; [lia |]. split; [lia |].
  rewrite !Z.mul_add_distr_r.
  rewrite (dyadic_rescale m1 e N1 K1 HK1 He1 H1 (K1 + K2)) by lia.
  rewrite (dyadic_rescale m2 e N2 K2 HK2 He2 H2 (K1 + K2)) by lia.
  reflexivity.
Qed.

Lemma shr_1_even (q : Z) :
  0 <= q ->
  shr_1 (Build_shr_record (2 * q) false false) = Build_shr_record q false false.
Proof. destruct q as [| p | p]; [reflexivity | reflexivity | lia]. Qed.

Lemma shr_iter_exact (n : nat) :
  forall q : Z,
    0 <= q ->
    Nat.iter n shr_1 (Build_shr_record (q * 2 ^ Z.of_nat n) false false)
    = Build_shr_record q false false.
Proof.
  induction n as [| n IH]; intros q Hq.
  - cbn [Nat.iter nat_rect]. rewrite Z.mul_1_r. reflexivity.
  - change (Nat.iter (S n) shr_1 ?x) with (shr_1 (Nat.iter n shr_1 x)).
    replace (q * 2 ^ Z.of_nat (S n)) with ((2 * q) * 2 ^ Z.of_nat n)
      by (rewrite Nat2Z.inj_succ, Z.pow_succ_r by lia; ring).
    rewrite IH by lia. apply shr_1_even, Hq.
Qed.

(** A stage of [binary_round_aux] on a mantissa that denotes an integer below
    2^53: nothing but zeros is shifted out. *)
Lemma shr_fexp_exact (m e N : Z) :
  0 < m -> dyadic m e N -> N < 2 ^ 53 ->
  exists m' e',
    shr_fexp prec emax m e loc_Exact = (Build_shr_record m' false false, e')
    /\ 0 < m' /\ dyadic m' e' N.
Proof.
  intros Hm Hd HN.
  pose proof (dyadic_pos _ _ _ Hm Hd) as HN0.
  destruct (dyadic_inv _ _ _ Hd) as [Hpos Hneg].
  assert (Hdig : Zdigits2 m + e <= 53).
  { destruct (Z_le_gt_dec 0 e) as [He | He].
    - assert (Zdigits2 m <= 53 - e); [| lia].
      assert (He53 : e < 53).
      { destruct (Z_lt_le_dec e 53) as [| Hbig]; [assumption |].
        assert (2 ^ 53 <= 2 ^ e) by (apply Z.pow_le_mono_r; lia).
        rewrite (Hpos He) in HN.
        assert (0 < 2 ^ e) by (apply Z.pow_pos_nonneg; lia). nia. }
      apply Zdigits2_upper; [assumption |].
      assert (H2 : 2 ^ 53 = 2 ^ (53 - e) * 2 ^ e)
        by (rewrite <- Z.pow_add_r by lia; f_equal; lia).
      rewrite (Hpos He), H2 in HN.
      assert (0 < 2 ^ e) by (apply Z.pow_pos_nonneg; lia). nia.
    - assert (Zdigits2 m <= 53 - e); [| lia].
      apply Zdigits2_upper; [assumption |].
      assert (H2 : 2 ^ (53 - e) = 2 ^ 53 * 2 ^ (- e))
        by (rewrite <- Z.pow_add_r by lia; f_equal; lia).
      rewrite H2, (Hneg ltac:(lia)).
      assert (0 < 2 ^ (- e)) by (apply Z.pow_pos_nonneg; lia). nia. }
  unfold shr_fexp, shr, fexp, SpecFloat.emin, prec, emax.
  cbn [shr_record_of_loc].
  destruct (Z.max (Zdigits2 m + e - 53) (3 - 1024 - 53) - e) as [| p | p] eqn:Hn.
  - exists m, e. repeat split; assumption.
  - assert (He : e < 0) by lia.
    assert (Hp : Z.pos p <= - e) by lia.
    rewrite iter_pos_nat.
    assert (Hm' : m = (N * 2 ^ (- e - Z.pos p)) * 2 ^ Z.of_nat (Pos.to_nat p)).
    { rewrite positive_nat_Z, <- Z.mul_assoc, <- Z.pow_add_r by lia.
      replace (- e - Z.pos p + Z.pos p) with (- e) by lia. apply Hneg, He. }
    assert (Hq : 0 < N * 2 ^ (- e - Z.pos p)).
    { apply Z.mul_pos_pos; [assumption | apply Z.pow_pos_nonneg; lia]. }
    replace (Build_shr_record m false false)
      with (Build_shr_record
              ((N * 2 ^ (- e - Z.pos p)) * 2 ^ Z.of_nat (Pos.to_nat p))
              false false)
      by (rewrite <- Hm'; reflexivity).
    rewrite shr_iter_exact by lia.
    exists (N * 2 ^ (- e - Z.pos p)), (e + Z.pos p).
    split; [reflexivity |]. split; [assumption |].
    apply dyadic_intro; intros He'.
    + replace (- e - Z.pos p) with 0 by lia.
      replace (e + Z.pos p) with 0 by lia. simpl. ring.
    + f_equal. f_equal. lia.
  - exists m, e. repeat split; assumption.
Qed.

Lemma binary_round_aux_exact (s : bool) (m e N : Z) :
  0 < m -> dyadic m e N -> N < 2 ^ 53 ->
  to_Z (binary_round_aux prec emax s m e loc_Exact) = Some (cond_Zopp s N).
Proof.
  intros Hm Hd HN. unfold binary_round_aux.
  destruct (shr_fexp_exact m e N Hm Hd HN) as (m1 & e1 & -> & Hm1 & Hd1).
  cbn [shr_m loc_of_shr_record round_nearest_even].
  destruct (shr_fexp_exact m1 e1 N Hm1 Hd1 HN) as (m2 & e2 & -> & Hm2 & Hd2).
  cbn [shr_m].
  destruct m2 as [| p | p]; try lia.
  assert (He2 : e2 <= emax - prec).
  { unfold emax, prec.
    destruct (Z_le_gt_dec e2 52) as [| Hbig]; [lia |]. exfalso.
    destruct (dyadic_inv _ _ _ Hd2) as [Hpos _].
    rewrite (Hpos ltac:(lia)) in HN.
    assert (2 ^ 53 <= 2 ^ e2) by (apply Z.pow_le_mono_r; lia).
    assert (0 < 2 ^ e2) by (apply Z.pow_pos_nonneg; lia). nia. }
  destruct (Z.leb_spec e2 (emax - prec)); [| lia].
  apply to_Z_finite, Hd2.
Qed.

Lemma iter_xO (m d : positive) :
  Zpos (Pos.iter xO m d) = Zpos m * 2 ^ Zpos d.
Proof.
  induction d as [| d IH] using Pos.peano_ind.
  - cbn [Pos.iter]. rewrite Pos2Z.inj_xO. change (2 ^ 1) with 2. ring.
  - rewrite Pos.iter_succ, Pos2Z.inj_xO, IH, Pos2Z.inj_succ, Z.pow_succ_r by lia.
    ring.
Qed.

Lemma shl_align_dyadic (mx : positive) (ex ex' N : Z) :
  dyadic (Zpos mx) ex N ->
  dyadic (Zpos (fst (shl_align mx ex ex'))) (snd (shl_align mx ex ex')) N
  /\ (ex' <= ex -> snd (shl_align mx ex ex') = ex').
Proof.
  intros Hd. unfold shl_align.
  destruct (ex' - ex) as [| d | d] eqn:Hdiff; cbn [fst snd].
  - split; [assumption | lia].
  - split; [assumption | lia].
  - split; [| reflexivity].
    destruct Hd as (K & HK & He & H).
    exists (K + Z.pos d). split; [lia |]. split; [lia |].
    rewrite iter_xO.
    replace (ex' + (K + Z.pos d)) with (ex + K) by lia.
    rewrite (Z.pow_add_r 2 K (Z.pos d)) by lia.
    transitivity ((Z.pos mx * 2 ^ (ex + K)) * 2 ^ Z.pos d); [ring |].
    rewrite H. ring.
Qed.

Lemma binary_normalize_exact (m e N : Z) (szero : bool) :
  dyadic m e N -> Z.abs N < 2 ^ 53 ->
  to_Z (binary_normalize prec emax m e szero) = Some N.
Proof.
  intros Hd HN. unfold binary_normalize, binary_round.
  destruct m as [| p | p].
  - rewrite (dyadic_zero _ _ Hd). reflexivity.
  - pose proof (dyadic_pos (Z.pos p) e N ltac:(lia) Hd) as HN0.
    destruct (shl_align_dyadic p e (fexp prec emax (Z.pos (digits2_pos p) + e))
                N Hd) as [Hd' _].
    destruct (shl_align _ _ _) as [mz ez]. cbn [fst snd] in Hd'.
    apply (binary_round_aux_exact false (Z.pos mz) ez N); [lia | assumption | lia].
  - apply dyadic_opp in Hd. change (- Z.neg p) with (Z.pos p) in Hd.
    pose proof (dyadic_pos (Z.pos p) e (- N) ltac:(lia) Hd) as HN0.
    destruct (shl_align_dyadic p e (fexp prec emax (Z.pos (digits2_pos p) + e))
                (- N) Hd) as [Hd' _].
    destruct (shl_align _ _ _) as [mz ez]. cbn [fst snd] in Hd'.
    rewrite (binary_round_aux_exact true (Z.pos mz) ez (- N));
      [| lia | assumption | lia].
    cbn [cond_Zopp]. rewrite Z.opp_involutive. reflexivity.
Qed.

(** Integers below 2^53 in magnitude are Numbers, and their sums and
    products are computed exactly. *)
Lemma of_Z_exact (n : Z) : Z.abs n < 2 ^ 53 -> to_Z (of_Z n) = Some n.
Proof.
  intros Hn. apply binary_normalize_exact; [| assumption].
  exists 0. rewrite Z.add_0_r. repeat split; lia.
Qed.

Lemma mul_exact (x y : number) (a b : Z) :
  to_Z x = Some a -> to_Z y = Some b -> Z.abs (a * b) < 2 ^ 53 ->
  to_Z (mul x y) = Some (a * b).
Proof.
  intros Hx Hy Hab.
  destruct x as [sx | sx | | sx mx ex]; try discriminate;
    destruct y as [sy | sy | | sy my ey]; try discriminate.
  - injection Hx as <-. reflexivity.
  - injection Hx as <-. reflexivity.
  - injection Hy as <-. rewrite Z.mul_0_r. reflexivity.
  - destruct (to_Z_finite_inv _ _ _ _ Hx) as (N1 & -> & Hd1).
    destruct (to_Z_finite_inv _ _ _ _ Hy) as (N2 & -> & Hd2).
    pose proof (dyadic_pos (Z.pos mx) ex N1 ltac:(lia) Hd1) as HN1.
    pose proof (dyadic_pos (Z.pos my) ey N2 ltac:(lia) Hd2) as HN2.
    unfold mul, SFmul. rewrite Pos2Z.inj_mul.
    rewrite (binary_round_aux_exact _ _ _ (N1 * N2));
      [| lia | apply dyadic_mul; assumption
       | destruct sx, sy; cbn [cond_Zopp] in Hab; lia].
    f_equal. destruct sx, sy; cbn [cond_Zopp xorb]; ring.
Qed.

Lemma add_exact (x y : number) (a b : Z) :
  to_Z x = Some a -> to_Z y = Some b -> Z.abs (a + b) < 2 ^ 53 ->
  to_Z (add x y) = Some (a + b).
Proof.
  intros Hx Hy Hab.
  destruct x as [sx | sx | | sx mx ex]; try discriminate;
    destruct y as [sy | sy | | sy my ey]; try discriminate.
  - injection Hx as <-. injection Hy as <-. destruct sx, sy; reflexivity.
  - injection Hx as <-. exact Hy.
  - injection Hy as <-. rewrite Z.add_0_r. exact Hx.
  - destruct (to_Z_finite_inv _ _ _ _ Hx) as (N1 & -> & Hd1).
    destruct (to_Z_finite_inv _ _ _ _ Hy) as (N2 & -> & Hd2).
    unfold add, SFadd.
    destruct (shl_align_dyadic mx ex (Z.min ex ey) N1 Hd1) as [Hd1' He1].
    destruct (shl_align_dyadic my ey (Z.min ex ey) N2 Hd2) as [Hd2' He2].
    rewrite He1 in Hd1' by lia. rewrite He2 in Hd2' by lia.
    apply binary_normalize_exact; [| assumption].
    apply dyadic_add.
    + destruct sx; cbn [cond_Zopp]; [apply dyadic_opp |]; assumption.
    + destruct sy; cbn [cond_Zopp]; [apply dyadic_opp |]; assumption.
Qed.

(** ** Draws scaled to a range *)

Lemma floor_random_scaled (c : Z) (Mc : positive) (kc : Z) (m : positive)
      (e : Z) :
  0 < kc <= 52 -> Zpos Mc = c * 2 ^ kc -> 2 ^ 52 < Zpos Mc < 2 ^ 53 ->
  Zpos m < 2 ^ 53 -> -1074 <= e <= -53 ->
  exists k, 0 <= k < c
            /\ Math_floor (mul (S754_finite false m e)
                               (S754_finite false Mc (- kc))) = of_Z k.
Proof.
  intros Hkc HMc HMc53 Hm He.
  unfold mul, SFmul. cbn [xorb].
  set (mx := Zpos (m * Mc)). set (ex := e + - kc).
  assert (Hmx : mx = Zpos m * Zpos Mc) by (subst mx; apply Pos2Z.inj_mul).
  clearbody mx.
  change (2 ^ 53) with 9007199254740992 in Hm, HMc53.
  change (2 ^ 52) with 4503599627370496 in HMc53.
  assert (Hmx0 : 0 < mx) by nia.
  assert (Hc0 : 0 < c).
  { assert (0 < 2 ^ kc) by (apply Z.pow_pos_nonneg; lia). nia. }
  set (E := 2 ^ (- e)).
  assert (HE : 9007199254740992 <= E).
  { subst E. change 9007199254740992 with (2 ^ 53).
    apply Z.pow_le_mono_r; lia. }
  set (T := 2 ^ (- ex)).
  assert (HT : c * T = Zpos Mc * E).
  { subst T E ex. replace (- (e + - kc)) with (kc + - e) by lia.
    rewrite Z.pow_add_r, HMc by lia. ring. }
  assert (HmxE : mx <= Zpos Mc * (E - 1)) by nia.
  assert (Hd106 : Zdigits2 mx <= 106).
  { apply Zdigits2_upper; [assumption |].
    change (2 ^ 106) with (9007199254740992 * 9007199254740992). nia. }
  assert (Hd6 : Zdigits2 mx + ex <= 53 - kc).
  { assert (Zdigits2 mx <= 53 - e); [| subst ex; lia].
    apply Zdigits2_upper; [assumption |].
    replace (53 - e) with (53 + - e) by lia. rewrite Z.pow_add_r by lia.
    fold E. change (2 ^ 53) with 9007199254740992. nia. }
  destruct (binary_round_aux_spec false mx ex (Z.lt_le_incl _ _ Hmx0))
    as (m1 & m2 & Hr & Hm1 & Hb1 & Hm2 & Hb2).
  cbv zeta in Hr, Hb1, Hb2.
  unfold fexp, SpecFloat.emin, prec, emax in Hr, Hb1, Hb2.
  set (e1 := Z.max ex (Z.max (Zdigits2 mx + ex - 53) (3 - 1024 - 53))) in *.
  set (e2 := Z.max e1 (Z.max (Zdigits2 m1 + e1 - 53) (3 - 1024 - 53))) in *.
  assert (He1 : ex <= e1 <= - kc /\ e1 - ex <= 53) by (subst e1 ex; lia).
  set (S1 := 2 ^ (e1 - ex)) in *.
  assert (HS1 : 1 <= S1 <= 9007199254740992).
  { subst S1. split.
    - change 1 with (2 ^ 0). apply Z.pow_le_mono_r; lia.
    - change 9007199254740992 with (2 ^ 53). apply Z.pow_le_mono_r; lia. }
  assert (HV1 : m1 * S1 < c * T).
  { rewrite HT. clear - Hb1 HmxE HS1 HMc53.
    assert (H : Z.pos Mc * (E - 1) = Z.pos Mc * E - Z.pos Mc) by ring.
    rewrite H in HmxE. clear H. rewrite <- Z.mul_assoc in Hb1.
    generalize dependent (Z.pos Mc * E).
    generalize dependent (m1 * S1). intros. lia. }
  assert (Hd1 : Zdigits2 m1 + e1 <= 53 - kc).
  { destruct (Z.eq_dec m1 0) as [-> | Hnz]; [cbn [Zdigits2]; lia |].
    assert (Zdigits2 m1 <= 53 - kc - e1); [| lia].
    apply Zdigits2_upper; [lia |].
    assert (HT'' : 9007199254740992 * E = 2 ^ (53 - kc - e1) * S1).
    { subst E S1. change 9007199254740992 with (2 ^ 53).
      rewrite <- !Z.pow_add_r by lia. f_equal. subst ex. lia. }
    nia. }
  assert (He2 : e1 <= e2 <= - kc) by (subst e2; lia).
  set (S2 := 2 ^ (e2 - e1)) in *.
  assert (HS2 : 1 <= S2).
  { subst S2. change 1 with (2 ^ 0). apply Z.pow_le_mono_r; lia. }
  set (C := 2 ^ (- e2)).
  assert (HC : 0 < C) by (subst C; apply Z.pow_pos_nonneg; lia).
  assert (HTC : T = C * (S2 * S1)).
  { subst T C S2 S1. rewrite <- !Z.pow_add_r by lia. f_equal. lia. }
  assert (Hm2C : m2 < c * C).
  { assert (H1 : m2 * S2 * S1 <= m1 * S1)
      by (apply Z.mul_le_mono_nonneg_r; lia).
    apply (Z.mul_lt_mono_pos_r (S2 * S1)); [nia |].
    rewrite HTC in HV1. lia. }
  unfold prec, emax. rewrite Hr.
  destruct m2 as [| p | p]; [| | lia].
  - exists 0. split; [lia | reflexivity].
  - destruct (Z.leb_spec e2 (1024 - 53)) as [_ | Hbad]; [| lia].
    unfold Math_floor. destruct (Z.leb_spec 0 e2) as [Hbad | _]; [lia |].
    cbn [cond_Zopp]. fold C.
    exists (Zpos p / C). split; [| reflexivity].
    split.
    + apply Z.div_pos; lia.
    + apply Z.div_lt_upper_bound; lia.
Qed.

(** A draw times an integer constant, floored: an integer below the
    constant. *)
Lemma floor_draw_scaled (c : Z) (Mc : positive) (kc : Z) (r : number) :
  0 < kc <= 52 -> Zpos Mc = c * 2 ^ kc -> 2 ^ 52 < Zpos Mc < 2 ^ 53 ->
  of_Z c = S754_finite false Mc (- kc) ->
  Spec.unit_draw r ->
  exists k, 0 <= k < c /\ to_Z (Math_floor (mul r (of_Z c))) = Some k.
Proof.
  intros Hkc HMc HMc53 Hc (Hv & H0 & H1).
  assert (Hc0 : 0 < c).
  { assert (0 < 2 ^ kc) by (apply Z.pow_pos_nonneg; lia). nia. }
  assert (Hc53 : c < 2 ^ 53).
  { assert (1 <= 2 ^ kc) by (change 1 with (2 ^ 0); apply Z.pow_le_mono_r; lia).
    nia. }
  rewrite Hc.
  destruct r as [s | s | | s m e]; try discriminate.
  - exists 0. split; [lia | reflexivity].
  - destruct s; discriminate.
  - destruct s; [discriminate |].
    destruct (unit_interval_inv m e Hv H1) as [Hm He].
    destruct (floor_random_scaled c Mc kc m e Hkc HMc HMc53 Hm He)
      as (k & Hk & ->).
    exists k. split; [assumption |]. apply of_Z_exact. lia.
Qed.

(** ** The toy LWE example *)

Lemma add_small (x y : number) (a b : Z) :
  to_Z x = Some a -> to_Z y = Some b -> Z.abs (a + b) < 9007199254740992 ->
  to_Z (add x y) = Some (a + b).
Proof. exact (add_exact x y a b). Qed.

Lemma mul_small (x y : number) (a b : Z) :
  to_Z x = Some a -> to_Z y = Some b -> Z.abs (a * b) < 9007199254740992 ->
  to_Z (mul x y) = Some (a * b).
Proof. exact (mul_exact x y a b). Qed.

Lemma of_Z_small (n : Z) :
  Z.abs n < 9007199254740992 -> to_Z (of_Z n) = Some n.
Proof. exact (of_Z_exact n). Qed.

Lemma mask_draw (r : number) :
  Spec.unit_draw r ->
  exists k, 0 <= k <= 999 /\ to_Z (Math_floor (mul r (of_Z 1000))) = Some k.
Proof.
  intros Hr.
  destruct (floor_draw_scaled 1000 8796093022208000 43 r) as (k & Hk & Hz);
    try assumption; try reflexivity; try (split; reflexivity); try lia.
  exists k. split; [lia | assumption].
Qed.

Lemma error_draw (r : number) :
  Spec.unit_draw r ->
  exists k, 1 <= k <= 5
            /\ to_Z (add (Math_floor (mul r (of_Z 5))) (of_Z 1)) = Some k.
Proof.
  intros Hr.
  destruct (floor_draw_scaled 5 5629499534213120 50 r) as (k & Hk & Hz);
    try assumption; try reflexivity; try (split; reflexivity); try lia.
  exists (k + 1). split; [lia |].
  apply add_small; [assumption | reflexivity | lia].
Qed.

Lemma generateToyLWE_run (message scale : number) (w : World) :
  run (generateToyLWE message scale) w
  = let s := [of_Z 1; of_Z 0; of_Z 1; of_Z 0] in
    let a := map (fun i => Math_floor (mul (random_src w (i + random_pos w))
                                           (of_Z 1000)))
                 [0; 1; 2; 3]%nat in
    let error := add (Math_floor (mul (random_src w (4 + random_pos w)) (of_Z 5)))
                     (of_Z 1) in
    let deltaM := mul message scale in
    let dotProduct :=
      fold_left (fun sum vs => add sum (mul (fst vs) (snd vs)))
                (combine a s) (of_Z 0) in
    mkToyLWE s a (add (add dotProduct deltaM) error) error dotProduct deltaM.
Proof. reflexivity. Qed.

(** X12: the toy LWE example.  With draws in [0, 1), the four mask entries
    are integers in [0, 999] and the error is an integer in [1, 5]; the
    secret is [1, 0, 1, 0], so the inner product is exactly a[0] + a[2]; and
    for an integer message the body is exactly
    a[0] + a[2] + message.scale + error, with no rounding. *)
Theorem toy_lwe_example :
  forall (message scale : number) (w : World) (M S : Z),
    (forall i, (i < 5)%nat -> Spec.unit_draw (random_src w (i + random_pos w))) ->
    to_Z message = Some M -> to_Z scale = Some S ->
    Z.abs (M * S) < 2 ^ 52 ->
    let t := run (generateToyLWE message scale) w in
    exists a0 a1 a2 a3 err,
      (0 <= a0 <= 999 /\ 0 <= a1 <= 999 /\ 0 <= a2 <= 999 /\ 0 <= a3 <= 999)
      /\ 1 <= err <= 5
      /\ map to_Z (lwe_s t) = [Some 1; Some 0; Some 1; Some 0]
      /\ map to_Z (lwe_a t) = [Some a0; Some a1; Some a2; Some a3]
      /\ to_Z (lwe_error t) = Some err
      /\ to_Z (lwe_deltaM t) = Some (M * S)
      /\ to_Z (lwe_dotProduct t) = Some (a0 + a2)
      /\ to_Z (lwe_b t) = Some (a0 + a2 + M * S + err).
Proof.
  intros message scale w M S Hdraws HM HS Hbound t. subst t.
  change (2 ^ 52) with 4503599627370496 in Hbound.
  rewrite generateToyLWE_run. cbv zeta.
  cbn [map combine fold_left fst snd lwe_s lwe_a lwe_b lwe_error
       lwe_dotProduct lwe_deltaM].
  destruct (mask_draw _ (Hdraws 0%nat ltac:(lia))) as (a0 & Ha0 & Hz0).
  destruct (mask_draw _ (Hdraws 1%nat ltac:(lia))) as (a1 & Ha1 & Hz1).
  destruct (mask_draw _ (Hdraws 2%nat ltac:(lia))) as (a2 & Ha2 & Hz2).
  destruct (mask_draw _ (Hdraws 3%nat ltac:(lia))) as (a3 & Ha3 & Hz3).
  destruct (error_draw _ (Hdraws 4%nat ltac:(lia))) as (err & Herr & Hze).
  assert (Hdelta : to_Z (mul message scale) = Some (M * S))
    by (apply mul_small; [assumption | assumption | lia]).
  assert (Hone : to_Z (of_Z 1) = Some 1) by reflexivity.
  assert (Hzero : to_Z (of_Z 0) = Some 0) by reflexivity.
  assert (Hdot : to_Z (add (add (add (add (of_Z 0)
                    (mul (Math_floor (mul (random_src w (0 + random_pos w)) (of_Z 1000))) (of_Z 1)))
                    (mul (Math_floor (mul (random_src w (1 + random_pos w)) (of_Z 1000))) (of_Z 0)))
                    (mul (Math_floor (mul (random_src w (2 + random_pos w)) (of_Z 1000))) (of_Z 1)))
                    (mul (Math_floor (mul (random_src w (3 + random_pos w)) (of_Z 1000))) (of_Z 0)))
                 = Some (a0 + a2)).
  { replace (a0 + a2) with (0 + a0 * 1 + a1 * 0 + a2 * 1 + a3 * 0) by ring.
    repeat (first [ apply add_small | apply mul_small | eassumption ]);
      lia. }
  exists a0, a1, a2, a3, err.
  split; [tauto |]. split; [assumption |].
  split; [reflexivity |].
  split; [rewrite Hz0, Hz1, Hz2, Hz3; reflexivity |].
  split; [assumption |]. split; [assumption |]. split; [exact Hdot |].
  apply add_small; [apply add_small | |]; try assumption; lia.
Qed.

(** ** Whole numbers *)

Lemma fexp_53 (e : Z) : -1074 <= e -> fexp prec emax (53 + e) = e.
Proof. intros He. unfold fexp, SpecFloat.emin, prec, emax. lia. Qed.

Lemma binary_round_aux_canonical (s : bool) (m : positive) (e : Z) :
  Zdigits2 (Zpos m) = 53 -> -1074 <= e <= 971 ->
  binary_round_aux prec emax s (Zpos m) e loc_Exact = S754_finite s m e.
Proof.
  intros Hd He.
  assert (Hshr : shr_fexp prec emax (Zpos m) e loc_Exact
                 = (Build_shr_record (Zpos m) false false, e)).
  { unfold shr_fexp. rewrite Hd, fexp_53 by lia. rewrite Z.sub_diag.
    reflexivity. }
  unfold binary_round_aux. rewrite Hshr.
  cbn [shr_m loc_of_shr_record shr_r shr_s round_nearest_even].
  rewrite Hshr. cbn [shr_m].
  destruct (Z.leb_spec e (emax - prec)) as [_ | H]; [reflexivity |].
  unfold emax, prec in H. lia.
Qed.

Lemma Zdigits2_shift (k n : Z) :
  0 < k -> 0 <= n -> Zdigits2 (k * 2 ^ n) = Zdigits2 k + n.
Proof.
  intros Hk Hn.
  assert (Hp : 0 < k * 2 ^ n)
    by (apply Z.mul_pos_pos; [lia | apply Z.pow_pos_nonneg; lia]).
  destruct k as [| p | p]; try lia.
  destruct (Z.pos p * 2 ^ n) as [| q | q] eqn:Hq; try lia.
  cbn [Zdigits2]. rewrite !digits2_log2, <- Hq, Z.log2_mul_pow2 by lia. lia.
Qed.

(** The double of a positive integer below 2^53: its mantissa is the
    integer shifted to 53 bits. *)
Lemma of_Z_repr (k : Z) :
  0 < k < 2 ^ 53 ->
  exists m, of_Z k = S754_finite false m (Zdigits2 k - 53)
            /\ Zpos m = k * 2 ^ (53 - Zdigits2 k).
Proof.
  intros [Hk0 Hk53].
  destruct k as [| p | p]; try lia.
  assert (Hd : 1 <= Zdigits2 (Zpos p) <= 53).
  { split.
    - cbn [Zdigits2]. lia.
    - apply Zdigits2_upper; lia. }
  unfold of_Z, binary_normalize, binary_round.
  rewrite Z.add_0_r.
  change (Z.pos (digits2_pos p)) with (Zdigits2 (Zpos p)).
  assert (Hf : fexp prec emax (Zdigits2 (Zpos p)) = Zdigits2 (Zpos p) - 53)
    by (unfold fexp, SpecFloat.emin, prec, emax; lia).
  rewrite Hf. unfold shl_align. rewrite Z.sub_0_r.
  destruct (Zdigits2 (Z.pos p) - 53) as [| d | d] eqn:Hdd; try lia.
  - exists p. split.
    + apply binary_round_aux_canonical; lia.
    + replace (53 - Zdigits2 (Z.pos p)) with 0 by lia.
      rewrite Z.mul_1_r. reflexivity.
  - assert (Hm : Zpos (Pos.iter xO p d) = Zpos p * 2 ^ (53 - Zdigits2 (Zpos p))).
    { rewrite iter_xO. f_equal. f_equal. lia. }
    exists (Pos.iter xO p d). split; [| exact Hm].
    apply binary_round_aux_canonical; [| lia].
    rewrite Hm, Zdigits2_shift by lia. lia.
Qed.

Lemma of_Z_compare (k c : Z) :
  0 < k < 2 ^ 53 -> 0 < c < 2 ^ 53 ->
  SFcompare (of_Z k) (of_Z c) = Some (k ?= c).
Proof.
  intros Hk Hc.
  destruct (of_Z_repr k Hk) as (mk & -> & Hmk).
  destruct (of_Z_repr c Hc) as (mc & -> & Hmc).
  assert (Hbk : 2 ^ (Zdigits2 k - 1) <= k < 2 ^ Zdigits2 k).
  { destruct k as [| p | p]; try lia. apply digits2_bounds. }
  assert (Hbc : 2 ^ (Zdigits2 c - 1) <= c < 2 ^ Zdigits2 c).
  { destruct c as [| p | p]; try lia. apply digits2_bounds. }
  assert (Hdk : 1 <= Zdigits2 k)
    by (destruct k as [| p | p]; try lia; cbn [Zdigits2]; lia).
  assert (Hdc : 1 <= Zdigits2 c)
    by (destruct c as [| p | p]; try lia; cbn [Zdigits2]; lia).
  assert (Hdk' : Zdigits2 k <= 53) by (apply Zdigits2_upper; lia).
  assert (Hdc' : Zdigits2 c <= 53) by (apply Zdigits2_upper; lia).
  cbn [SFcompare]. f_equal.
  destruct (Z.compare_spec (Zdigits2 k - 53) (Zdigits2 c - 53)) as [He | He | He].
  - assert (Hdd : Zdigits2 k = Zdigits2 c) by lia.
    rewrite Hdd in Hmk.
    assert (H2 : 0 < 2 ^ (53 - Zdigits2 c)) by (apply Z.pow_pos_nonneg; lia).
    change (Pos.compare_cont Eq mk mc) with (Z.pos mk ?= Z.pos mc).
    rewrite Hmk, Hmc.
    destruct (Z.compare_spec k c) as [-> | Hl | Hg].
    + apply Z.compare_refl.
    + apply Z.compare_lt_iff. apply Z.mul_lt_mono_pos_r; assumption.
    + apply Z.compare_gt_iff. apply Z.mul_lt_mono_pos_r; assumption.
  - symmetry. apply Z.compare_lt_iff.
    assert (2 ^ Zdigits2 k <= 2 ^ (Zdigits2 c - 1))
      by (apply Z.pow_le_mono_r; lia).
    lia.
  - symmetry. apply Z.compare_gt_iff.
    assert (2 ^ Zdigits2 c <= 2 ^ (Zdigits2 k - 1))
      by (apply Z.pow_le_mono_r; lia).
    lia.
Qed.

(** At or above 2^53 the double of an integer has a positive exponent or
    is infinite. *)
Lemma of_Z_large (p : positive) :
  2 ^ 53 <= Zpos p ->
  match of_Z (Zpos p) with
  | S754_zero _ => True
  | S754_infinity s => s = false
  | S754_finite s _ e => s = false /\ 1 <= e
  | S754_nan => False
  end.
Proof.
  intros Hge.
  assert (Hdq : 54 <= Zdigits2 (Zpos p)).
  { cbn [Zdigits2]. rewrite digits2_log2.
    assert (53 <= Z.log2 (Zpos p)) by (apply Z.log2_le_pow2; lia).
    lia. }
  unfold of_Z, binary_normalize, binary_round.
  rewrite Z.add_0_r.
  change (Z.pos (digits2_pos p)) with (Zdigits2 (Zpos p)).
  assert (Hf : fexp prec emax (Zdigits2 (Zpos p)) = Zdigits2 (Zpos p) - 53)
    by (unfold fexp, SpecFloat.emin, prec, emax; lia).
  rewrite Hf. unfold shl_align. rewrite Z.sub_0_r.
  destruct (Zdigits2 (Z.pos p) - 53) as [| d | d] eqn:Hdd; try lia.
  destruct (binary_round_aux_spec false (Zpos p) 0 ltac:(lia))
    as (m1 & m2 & Heq & Hm1 & _ & Hm2 & _).
  cbv zeta in Heq. rewrite Heq. clear Heq.
  rewrite Z.add_0_r, Hf.
  set (e2 := Z.max _ _).
  assert (He2 : 1 <= e2) by (subst e2; lia).
  destruct m2 as [| p2 | p2]; try lia.
  destruct (Z.leb_spec e2 (emax - prec)); [split; [reflexivity | exact He2] |].
  reflexivity.
Qed.

(** Clamping the floor of a non-negative Number at a positive integer
    gives a whole number between 0 and the clamp. *)
Lemma Math_min_floor_integer (c : Z) (x : number) :
  0 < c < 2 ^ 52 ->
  le (of_Z 0) x = true ->
  exists k, 0 <= k <= c /\ to_Z (Math_min (of_Z c) (Math_floor x)) = Some k.
Proof.
  intros Hc' Hx.
  assert (Hc : 0 < c < 2 ^ 53)
    by (change (2 ^ 53) with (2 * 2 ^ 52); lia).
  assert (Hcz : to_Z (of_Z c) = Some c) by (apply of_Z_exact; lia).
  destruct (of_Z_repr c Hc) as (mc & Hrc & Hmc).
  assert (Hdc : Zdigits2 c <= 52) by (apply Zdigits2_upper; lia).
  destruct x as [s | [|] | | [|] m e]; try discriminate.
  - exists 0. split; [lia |]. unfold Math_floor, Math_min.
    rewrite Hrc. destruct s; reflexivity.
  - exists c. split; [lia |]. unfold Math_floor, Math_min.
    rewrite Hrc. cbn [SFcompare]. rewrite <- Hrc. exact Hcz.
  - unfold Math_floor. destruct (Z.leb_spec 0 e) as [He | He].
    + exists c. split; [lia |]. unfold Math_min. rewrite Hrc. cbn [SFcompare].
      assert (Hgt : (e ?= Zdigits2 c - 53) = Gt)
        by (apply Z.compare_gt_iff; lia).
      rewrite Hgt. rewrite <- Hrc. exact Hcz.
    + cbn [cond_Zopp].
      assert (H2 : 0 < 2 ^ (- e)) by (apply Z.pow_pos_nonneg; lia).
      assert (Hq : 0 <= Z.pos m / 2 ^ (- e)) by (apply Z.div_pos; lia).
      remember (Z.pos m / 2 ^ (- e)) as q eqn:Hqdef. clear Hqdef.
      destruct (Z_lt_ge_dec q (2 ^ 53)) as [Hlt | Hge].
      * destruct (Z.eq_dec q 0) as [-> | Hnz].
        { exists 0. split; [lia |]. unfold Math_min. rewrite Hrc.
          reflexivity. }
        unfold Math_min.
        rewrite (of_Z_compare q c) by lia.
        destruct (Z.compare_spec q c) as [Heq | Hl | Hg].
        -- exists c. split; [lia |].
           destruct (of_Z_repr q ltac:(lia)) as (mq & -> & _). exact Hcz.
        -- exists q. split; [lia |]. apply of_Z_exact. lia.
        -- exists c. split; [lia |]. exact Hcz.
      * destruct q as [| p | p]; try lia.
        pose proof (of_Z_large p ltac:(lia)) as Hbig.
        unfold Math_min. rewrite Hrc.
        destruct (of_Z (Zpos p)) as [s | s | | s m2 e2]; try contradiction.
        -- exists 0. split; [lia |]. destruct s; reflexivity.
        -- subst s. exists c. split; [lia |]. cbn [SFcompare].
           rewrite <- Hrc. exact Hcz.
        -- destruct Hbig as [-> He2]. exists c. split; [lia |].
           cbn [SFcompare].
           assert (Hgt : (e2 ?= Zdigits2 c - 53) = Gt)
             by (apply Z.compare_gt_iff; lia).
           rewrite Hgt. rewrite <- Hrc. exact Hcz.
Qed.

(** ** Reading the label back *)

Lemma hex_digit_value_digit (d : Z) :
  0 <= d < 16 -> Spec.hex_digit_value (hex_digit d) = d.
Proof.
  intros Hd. rewrite <- (Z2Nat.id d) by lia.
  assert (Hn : (Z.to_nat d < 16)%nat) by lia.
  generalize dependent (Z.to_nat d). clear d Hd. intros n Hn.
  do 16 (destruct n as [| n]; [reflexivity |]).
  lia.
Qed.

Lemma hex_digit_value_range (c : ascii) : 0 <= Spec.hex_digit_value c < 16.
Proof.
  destruct c as [[] [] [] [] [] [] [] []]; vm_compute; split; congruence.
Qed.

Lemma parse_hex_from_eq (s : string) :
  forall acc,
    Spec.parse_hex_from acc s
    = acc * 16 ^ Z.of_nat (String.length s) + Spec.parse_hex s.
Proof.
  unfold Spec.parse_hex.
  induction s as [| c s IH]; intros acc.
  - cbn [Spec.parse_hex_from String.length]. change (16 ^ Z.of_nat 0) with 1.
    lia.
  - cbn [Spec.parse_hex_from String.length].
    rewrite (IH (16 * acc + _)), (IH (16 * 0 + _)).
    rewrite Nat2Z.inj_succ, Z.pow_succ_r by lia. ring.
Qed.

Lemma parse_hex_cons (c : ascii) (s : string) :
  Spec.parse_hex (String c s)
  = Spec.hex_digit_value c * 16 ^ Z.of_nat (String.length s) + Spec.parse_hex s.
Proof.
  unfold Spec.parse_hex at 1. cbn [Spec.parse_hex_from].
  rewrite parse_hex_from_eq. f_equal.
Qed.

Lemma parse_hex_range (s : string) :
  0 <= Spec.parse_hex s < 16 ^ Z.of_nat (String.length s).
Proof.
  induction s as [| c s IH].
  - split; [reflexivity | reflexivity].
  - rewrite parse_hex_cons. cbn [String.length].
    rewrite Nat2Z.inj_succ, Z.pow_succ_r by lia.
    pose proof (hex_digit_value_range c) as Hc.
    assert (0 < 16 ^ Z.of_nat (String.length s))
      by (apply Z.pow_pos_nonneg; lia).
    nia.
Qed.

Lemma parse_hex_app (p q : string) :
  Spec.parse_hex (p ++ q)
  = Spec.parse_hex p * 16 ^ Z.of_nat (String.length q) + Spec.parse_hex q.
Proof.
  induction p as [| c p IH].
  - cbn [append]. change (Spec.parse_hex "") with 0. lia.
  - cbn [append]. rewrite !parse_hex_cons, IH.
    assert (Hlen : String.length (p ++ q) = (String.length p + String.length q)%nat).
    { clear. induction p as [| c p IH]; [reflexivity |].
      cbn [append String.length]. rewrite IH. reflexivity. }
    rewrite Hlen, Nat2Z.inj_add, Z.pow_add_r by lia. ring.
Qed.

Lemma hex_digits_value (fuel : nat) :
  forall (n : Z) (acc : string),
    0 <= n < 16 ^ Z.of_nat fuel ->
    Spec.parse_hex (hex_digits fuel n acc)
    = n * 16 ^ Z.of_nat (String.length acc) + Spec.parse_hex acc.
Proof.
  induction fuel as [| fuel IH]; intros n acc Hn.
  - change (16 ^ Z.of_nat 0) with 1 in Hn. assert (n = 0) by lia. subst n.
    cbn [hex_digits]. lia.
  - rewrite Nat2Z.inj_succ, Z.pow_succ_r in Hn by lia.
    cbn [hex_digits].
    pose proof (Z.div_mod n 16 ltac:(lia)) as Hdm.
    pose proof (Z.mod_pos_bound n 16 ltac:(lia)) as Hmod.
    assert (Hacc' : Spec.parse_hex (String (hex_digit (n mod 16)) acc)
                    = (n mod 16) * 16 ^ Z.of_nat (String.length acc)
                      + Spec.parse_hex acc)
      by (rewrite parse_hex_cons, hex_digit_value_digit by lia; reflexivity).
    destruct (Z.eqb_spec (n / 16) 0) as [Hq | Hq].
    + rewrite Hacc'. f_equal. f_equal. lia.
    + rewrite IH.
      * rewrite Hacc'. cbn [String.length].
        rewrite Nat2Z.inj_succ, Z.pow_succ_r by lia.
        rewrite Hdm at 3. ring.
      * split; [apply Z.div_pos; lia |].
        apply Z.div_lt_upper_bound; lia.
Qed.

(** Parsing the digits of a non-negative integer gives it back. *)
Lemma parse_hex_of_Z (n : Z) : 0 <= n -> Spec.parse_hex (hex_of_Z n) = n.
Proof.
  intros Hn. unfold hex_of_Z. rewrite hex_digits_value.
  - change (Spec.parse_hex "") with 0. cbn [String.length].
    change (16 ^ Z.of_nat 0) with 1. lia.
  - split; [assumption |].
    rewrite Nat2Z.inj_succ, Z2Nat.id by apply Z.log2_nonneg.
    destruct (Z.eq_dec n 0) as [-> | Hnz].
    + reflexivity.
    + pose proof (Z.log2_spec n ltac:(lia)) as [_ Hlog].
      eapply Z.lt_le_trans; [exact Hlog |].
      apply Z.pow_le_mono_l. lia.
Qed.

Lemma substring_split (s : string) :
  forall n : nat,
    (n <= String.length s)%nat ->
    s = (substring 0 n s ++ substring n (String.length s - n) s)%string.
Proof.
  induction s as [| c s IH]; intros n Hn.
  - cbn [String.length] in Hn. assert (n = O) by lia. subst n. reflexivity.
  - destruct n as [| n].
    + cbn [substring append String.length Nat.sub]. f_equal.
      clear. induction s as [| c s IH]; [reflexivity |].
      cbn [substring String.length]. f_equal. exact IH.
    + cbn [String.length] in Hn.
      cbn [substring append String.length Nat.sub]. f_equal.
      apply IH. lia.
Qed.

(** [slice(-6)] keeps the residue modulo 16^6. *)
Lemma parse_hex_slice_last (s : string) :
  (6 <= String.length s)%nat ->
  Spec.parse_hex (slice_last 6 s) = Spec.parse_hex s mod 16 ^ 6.
Proof.
  intros Hlen. unfold slice_last.
  pose proof (substring_split s (String.length s - 6) ltac:(lia)) as Hs.
  replace (String.length s - (String.length s - 6))%nat with 6%nat in Hs by lia.
  set (q := substring (String.length s - 6) 6 s) in *.
  assert (Hq : String.length q = 6%nat)
    by (subst q; apply substring_length; lia).
  replace (Spec.parse_hex s)
    with (Spec.parse_hex (substring 0 (String.length s - 6) s ++ q))
    by (rewrite <- Hs; reflexivity).
  rewrite parse_hex_app, Hq.
  pose proof (parse_hex_range q) as Hr. rewrite Hq in Hr.
  change (Z.of_nat 6) with 6 in *.
  rewrite Z.add_comm, Z.mod_add by (apply Z.pow_nonzero; lia).
  symmetry. apply Z.mod_small. exact Hr.
Qed.

(** 1337 is invertible modulo 2^24. *)
Lemma read_seed_spec (h : string) (n now : Z) :
  Spec.parse_hex h = (n * 1337 + now) mod Spec.label_modulus ->
  Spec.read_seed h now = n mod Spec.label_modulus.
Proof.
  intros Hh. unfold Spec.read_seed. rewrite Hh.
  set (M := Spec.label_modulus).
  assert (HM : M <> 0) by (subst M; unfold Spec.label_modulus; lia).
  rewrite Z.mul_mod by exact HM.
  rewrite Zminus_mod_idemp_l.
  replace (n * 1337 + now - now) with (n * 1337) by ring.
  rewrite <- Z.mul_mod by exact HM.
  replace (n * 1337 * 10967305) with (n + n * 874 * M)
    by (subst M; unfold Spec.label_modulus; change (2 ^ 24) with 16777216; ring).
  apply Z.mod_add. exact HM.
Qed.

(** The label of a value whose seed is an integer. *)
Lemma integer_seed_sum (value : FheDataType) (w : World) (n : Z) :
  to_Z (ciphertext_seed value) = Some n ->
  Z.abs n <= 2 ^ 20 ->
  2 ^ 31 <= clock_src w (clock_pos w) < 2 ^ 52 ->
  let now := clock_src w (clock_pos w) in
  16 ^ 5 <= n * 1337 + now
  /\ run (generateCiphertext value) w
     = ("ct_0x" ++ slice_last 6 (hex_of_Z (n * 1337 + now)) ++ "..."
        ++ substring_from 7 (toString36 w (random_src w (random_pos w))))%string.
Proof.
  intros Hseed Hn Hclock now.
  change (2 ^ 20) with 1048576 in Hn.
  change (2 ^ 31) with 2147483648 in Hclock.
  change (2 ^ 52) with 4503599627370496 in Hclock.
  fold now in Hclock.
  assert (Hsum : to_Z (add (mul (ciphertext_seed value) (of_Z 1337)) (of_Z now))
                 = Some (n * 1337 + now)).
  { apply add_small; [apply mul_small | apply of_Z_small |]; try assumption;
      try reflexivity; lia. }
  assert (Hlow : 16 ^ 5 <= n * 1337 + now)
    by (change (16 ^ 5) with 1048576; lia).
  split; [exact Hlow |].
  rewrite generateCiphertext_run. fold now.
  rewrite (Number_toString16_integer _ _ Hsum)
    by (change (16 ^ 5) with 1048576 in Hlow; lia).
  reflexivity.
Qed.

Lemma label_of_integer_seed (value : FheDataType) (w : World) (n : Z) :
  to_Z (ciphertext_seed value) = Some n ->
  Z.abs n <= 2 ^ 20 ->
  2 ^ 31 <= clock_src w (clock_pos w) < 2 ^ 52 ->
  let now := clock_src w (clock_pos w) in
  let noise := substring_from 7 (toString36 w (random_src w (random_pos w))) in
  exists h,
    run (generateCiphertext value) w = ("ct_0x" ++ h ++ "..." ++ noise)%string
    /\ String.length h = 6%nat
    /\ all_hex h = true
    /\ Spec.parse_hex h = (n * 1337 + now) mod Spec.label_modulus
    /\ Spec.read_seed h now = n mod Spec.label_modulus.
Proof.
  intros Hseed Hn Hclock now noise. subst noise.
  destruct (integer_seed_sum value w n Hseed Hn Hclock) as [Hlow Hrun].
  fold now in Hlow, Hrun.
  assert (Hnn : 0 <= n * 1337 + now)
    by (change (16 ^ 5) with 1048576 in Hlow; lia).
  destruct (hex_of_Z_shape _ Hlow) as [Hlen Hhex].
  destruct (slice_last_shape _ Hlen Hhex) as [Hlen6 Hhex6].
  assert (Hparse : Spec.parse_hex (slice_last 6 (hex_of_Z (n * 1337 + now)))
                   = (n * 1337 + now) mod Spec.label_modulus).
  { rewrite parse_hex_slice_last by exact Hlen.
    rewrite parse_hex_of_Z by exact Hnn. reflexivity. }
  eexists. split; [exact Hrun |]. split; [exact Hlen6 |].
  split; [exact Hhex6 |]. split; [exact Hparse |].
  apply read_seed_spec. exact Hparse.
Qed.

(** ** Scores are whole numbers *)

Lemma diagnosis_whole (raw : FheDataType) :
  match raw with
  | Vitals v => le (of_Z 0) (symptomSeverity v) = true
  | Scalar x => le (of_Z 0) x = true
  | Profile _ => False
  end ->
  exists k, 0 <= k <= 99 /\ to_Z (diagnosis_newVal raw) = Some k.
Proof.
  destruct raw as [x | v | fs]; intros H; [| | contradiction];
    cbn [diagnosis_newVal as_number];
    apply Math_min_floor_integer; try (split; reflexivity).
  - change (lit 15 10) with (S754_finite false 6755399441055744 (-52)).
    apply mul_nonneg. exact H.
  - apply diagnosis_score_nonneg. exact H.
Qed.

Lemma lab_whole (raw : FheDataType) :
  match raw with
  | Vitals v => heartRate v <> NaN /\ systolic v <> NaN /\ oxygenSat v <> NaN
  | Scalar x => le (of_Z 0) x = true
  | Profile _ => False
  end ->
  exists k, 0 <= k <= 100 /\ to_Z (lab_newVal raw) = Some k.
Proof.
  destruct raw as [x | v | fs]; intros H; [| | contradiction];
    cbn [lab_newVal as_number];
    apply Math_min_floor_integer; try (split; reflexivity).
  - change (lit 12 10) with (S754_finite false 5404319552844595 (-52)).
    apply mul_nonneg. exact H.
  - destruct H as (H1 & H2 & H3). apply lab_variance_nonneg; assumption.
Qed.

(** X14: the scores are whole numbers.  On a vitals record with a
    non-negative symptomSeverity, and on a non-negative scalar, diagnosis
    returns an integer between 0 and 99; on a vitals record whose heartRate,
    systolic and oxygenSat are not NaN, and on a non-negative scalar, lab
    analysis returns an integer between 0 and 100. *)
Theorem scores_are_whole_numbers :
  forall (a : FheValue) (w : World),
    (match rawValue a with
     | Vitals v => le (of_Z 0) (symptomSeverity v) = true
     | Scalar x => le (of_Z 0) x = true
     | Profile _ => False
     end ->
     exists r k,
       rawValue (value (run (homomorphicDiagnosis a) w)) = Scalar r
       /\ to_Z r = Some k /\ 0 <= k <= 99)
    /\ (match rawValue a with
        | Vitals v =>
            heartRate v <> NaN /\ systolic v <> NaN /\ oxygenSat v <> NaN
        | Scalar x => le (of_Z 0) x = true
        | Profile _ => False
        end ->
        exists r k,
          rawValue (value (run (homomorphicLabAnalysis a) w)) = Scalar r
          /\ to_Z r = Some k /\ 0 <= k <= 100).
Proof.
  intros a w. split; intros H.
  - destruct (homomorphicDiagnosis_value w a) as [b ->].
    destruct (diagnosis_whole _ H) as (k & Hk & Hz).
    exists (diagnosis_newVal (rawValue a)), k. repeat split; try assumption; lia.
  - destruct (homomorphicLabAnalysis_value w a) as [b ->].
    destruct (lab_whole _ H) as (k & Hk & Hz).
    exists (lab_newVal (rawValue a)), k. repeat split; try assumption; lia.
Qed.

(** ** Labels of scored envelopes *)

Lemma reveals_intro (e : FheValue) (w : World) (r : number) (k lo hi : Z) :
  rawValue e = Scalar r ->
  encryptedBlob e = run (generateCiphertext (Scalar r)) w ->
  to_Z r = Some k -> lo <= k <= hi -> 0 <= lo -> hi <= 2 ^ 20 ->
  2 ^ 31 <= clock_src w (clock_pos w) < 2 ^ 52 ->
  Spec.reveals e (clock_src w (clock_pos w))
    (substring_from 7 (toString36 w (random_src w (random_pos w)))) lo hi.
Proof.
  intros Hraw Hblob Hz Hk Hlo Hhi Hclock.
  change (2 ^ 20) with 1048576 in Hhi.
  destruct (label_of_integer_seed (Scalar r) w k) as (h & Hl & Hlen & Hhex & _ & Hread).
  - exact Hz.
  - change (2 ^ 20) with 1048576. lia.
  - exact Hclock.
  - exists r, k, h. split; [exact Hraw |]. split; [exact Hz |].
    split; [exact Hk |]. split; [rewrite Hblob; exact Hl |].
    split; [exact Hlen |]. split; [exact Hhex |].
    rewrite Hread. apply Z.mod_small.
    unfold Spec.label_modulus. change (2 ^ 24) with 16777216. lia.
Qed.

(** X15: the label of a scored envelope is well formed and is not hiding.
    At any clock value from 2^31 to 2^52 the label that diagnosis, lab
    analysis and structured billing attach reads ct_0x, six hexadecimal
    digits, three dots and the suffix; and the six digits, read with the
    clock value, give the score or the cost back. *)
Theorem scored_label_reveals_score :
  forall (a : FheValue) (w : World),
    2 ^ 31 <= clock_src w (clock_pos w) < 2 ^ 52 ->
    let now := clock_src w (clock_pos w) in
    let noise i :=
      substring_from 7 (toString36 w (random_src w (i + random_pos w))) in
    (match rawValue a with
     | Vitals v => le (of_Z 0) (symptomSeverity v) = true
     | Scalar x => le (of_Z 0) x = true
     | Profile _ => False
     end ->
     Spec.reveals (value (run (homomorphicDiagnosis a) w)) now (noise 0%nat)
       0 99)
    /\ (match rawValue a with
        | Vitals v =>
            heartRate v <> NaN /\ systolic v <> NaN /\ oxygenSat v <> NaN
        | Scalar x => le (of_Z 0) x = true
        | Profile _ => False
        end ->
        Spec.reveals (value (run (homomorphicLabAnalysis a) w)) now
          (noise 0%nat) 0 100)
    /\ (typeof_object (rawValue a) = true ->
        Spec.unit_draw (random_src w (random_pos w)) ->
        Spec.reveals (value (run (homomorphicBilling a) w)) now (noise 1%nat)
          150 199)
    /\ (typeof_object (rawValue a) = false ->
        Spec.reveals (value (run (homomorphicBilling a) w)) now (noise 0%nat)
          50 50).
Proof.
  intros a w Hclock now noise. subst now noise. cbv beta.
  split; [| split; [| split]].
  - intros H. destruct (diagnosis_whole _ H) as (k & Hk & Hz).
    apply (reveals_intro _ w (diagnosis_newVal (rawValue a)) k);
      try assumption; try reflexivity; try lia.
  - intros H. destruct (lab_whole _ H) as (k & Hk & Hz).
    apply (reveals_intro _ w (lab_newVal (rawValue a)) k);
      try assumption; try reflexivity; try lia.
  - intros Hobj (Hv & H0 & H1).
    destruct (random_cost _ Hv H0 H1) as (k & Hk & Hcost).
    pose proof (reveals_intro (value (run (homomorphicBilling a) w))
                  (advance w 1 0 0)
                  (add (of_Z 150)
                       (Math_floor (mul (random_src w (random_pos w)) (of_Z 50))))
                  (150 + k) 150 199) as Hr.
    cbn [advance random_src random_pos clock_src clock_pos toString36 Nat.add]
      in Hr.
    apply Hr; try assumption; try lia.
    + destruct a as [i [x | v | fs] b s h]; try discriminate; reflexivity.
    + destruct a as [i [x | v | fs] b s h]; try discriminate; reflexivity.
    + rewrite Hcost. apply of_Z_small. lia.
  - intros Hobj.
    apply (reveals_intro _ w (of_Z 50) 50); try assumption; try lia.
    + destruct a as [i [x | v | fs] b s h]; try discriminate; reflexivity.
    + destruct a as [i [x | v | fs] b s h]; try discriminate; reflexivity.
    + reflexivity.
Qed.

Lemma label_digits_inj (h1 h2 t : string) :
  String.length h1 = 6%nat -> String.length h2 = 6%nat ->
  ("ct_0x" ++ h1 ++ t)%string = ("ct_0x" ++ h2 ++ t)%string -> h1 = h2.
Proof.
  intros H1 H2 Heq.
  do 6 (destruct h1 as [| ? h1]; [discriminate |]).
  destruct h1; [| discriminate].
  do 6 (destruct h2 as [| ? h2]; [discriminate |]).
  destruct h2; [| discriminate].
  cbn [append] in Heq. injection Heq as -> -> -> -> -> ->. reflexivity.
Qed.

(** X13: the label of a value with an integer seed.  For a seed n of at
    most 2^20 in size and a clock value from 2^31 to 2^52 the label reads
    ct_0x, six hexadecimal digits, three dots and the suffix; the six
    digits are n.1337 + Date.now() modulo 2^24; and under the same clock and
    draw two such values get the same label exactly when their seeds are
    equal. *)
Theorem label_reveals_seed :
  forall (v1 v2 : FheDataType) (w : World) (n1 n2 : Z),
    to_Z (ciphertext_seed v1) = Some n1 ->
    to_Z (ciphertext_seed v2) = Some n2 ->
    Z.abs n1 <= 2 ^ 20 -> Z.abs n2 <= 2 ^ 20 ->
    2 ^ 31 <= clock_src w (clock_pos w) < 2 ^ 52 ->
    let now := clock_src w (clock_pos w) in
    let noise := substring_from 7 (toString36 w (random_src w (random_pos w))) in
    (exists h,
        run (generateCiphertext v1) w = ("ct_0x" ++ h ++ "..." ++ noise)%string
        /\ String.length h = 6%nat
        /\ all_hex h = true
        /\ Spec.parse_hex h = (n1 * 1337 + now) mod Spec.label_modulus)
    /\ (run (generateCiphertext v1) w = run (generateCiphertext v2) w
        <-> n1 = n2).
Proof.
  intros v1 v2 w n1 n2 Hs1 Hs2 Hn1 Hn2 Hclock now noise.
  destruct (label_of_integer_seed v1 w n1 Hs1 Hn1 Hclock)
    as (h1 & Hl1 & Hlen1 & Hhex1 & Hp1 & Hr1).
  destruct (label_of_integer_seed v2 w n2 Hs2 Hn2 Hclock)
    as (h2 & Hl2 & Hlen2 & Hhex2 & Hp2 & Hr2).
  split.
  - exists h1. repeat split; assumption.
  - split.
    + intros Heq. rewrite Hl1, Hl2 in Heq.
      apply label_digits_inj in Heq; [| assumption | assumption].
      subst h2. rewrite Hr1 in Hr2.
      change (2 ^ 20) with 1048576 in Hn1, Hn2.
      unfold Spec.label_modulus in Hr2. change (2 ^ 24) with 16777216 in Hr2.
      pose proof (Z.div_mod n1 16777216 ltac:(lia)) as Hd1.
      pose proof (Z.div_mod n2 16777216 ltac:(lia)) as Hd2.
      lia.
    + intros <-.
      rewrite (proj2 (integer_seed_sum v1 w n1 Hs1 Hn1 Hclock)).
      rewrite (proj2 (integer_seed_sum v2 w n1 Hs2 Hn2 Hclock)).
      reflexivity.
Qed.

(** ** Instances *)

Lemma billing_after_scoring_is_flat_witness :
  rawValue (value (run (homomorphicBilling
                          (value (run (apply_transform Diagnosis
                                         (envelope_of (Vitals vitals_a)))
                                      world_a))) world_a))
  = Scalar (of_Z 50).
Proof.
  apply (billing_after_scoring_is_flat Diagnosis). reflexivity.
Defined.


Lemma analyze_outcomes_witness :
  GeminiService.analyzeProtocolStep silent_reply sample_logs = inr None
  /\ GeminiService.analyzeProtocolStep sound_reply sample_logs
     = inr (Some (GeminiService.JObject [])).
Proof.
  destruct (analyze_outcomes silent_reply sample_logs) as (Hsilent & _ & _).
  destruct (analyze_outcomes sound_reply sample_logs) as (_ & Hsound & _).
  split.
  - apply (Hsilent "key"%string None);
      [reflexivity | discriminate | reflexivity | reflexivity].
  - apply (Hsound "key"%string "{}"%string);
      [reflexivity | discriminate | reflexivity | discriminate | reflexivity].
Defined.

Lemma concealed_payload_is_not_shown_witness :
  EncryptionVisualizer.render (Vitals vitals_a) ENCRYPTED None
  = EncryptionVisualizer.EncryptedView "ENCRYPTED" "Encrypted Vitals Vector".
Proof.
  apply (proj1 concealed_payload_is_not_shown (Vitals vitals_a) ENCRYPTED None).
  reflexivity.
Defined.

Lemma critical_score_is_alerted_witness :
  (if gt (of_Z 90) (of_Z 80)
   then EncryptionVisualizer.AlertTriangle
   else EncryptionVisualizer.CheckCircle2)
  = EncryptionVisualizer.AlertTriangle.
Proof.
  apply (proj1 critical_score_is_alerted (Scalar (of_Z 90)) DECRYPTED
           (Some "URGENCY INDEX"%string) "URGENCY INDEX"%string (of_Z 90)
           (EncryptionVisualizer.getHealthRating (of_Z 90))).
  - reflexivity.
  - vm_compute. reflexivity.
  - vm_compute. discriminate.
Defined.

Lemma diagnosis_range_witness :
  exists r,
    rawValue (value (run (homomorphicDiagnosis (envelope_of (Vitals vitals_a)))
                         world_a)) = Scalar r
    /\ Spec.in_interval 0 99 r.
Proof.
  destruct (diagnosis_range (envelope_of (Vitals vitals_a)) world_a)
    as (r & Hr & _ & Hin).
  exists r. split; [exact Hr |].
  apply (Hin vitals_a); [reflexivity | vm_compute; reflexivity].
Defined.

Lemma lab_range_witness :
  exists r,
    rawValue (value (run (homomorphicLabAnalysis (envelope_of (Vitals vitals_a)))
                         world_a)) = Scalar r
    /\ Spec.in_interval 0 100 r.
Proof.
  destruct (lab_range (envelope_of (Vitals vitals_a)) world_a)
    as (r & Hr & _ & Hin).
  exists r. split; [exact Hr |].
  apply (Hin vitals_a); [reflexivity | | |]; vm_compute; discriminate.
Defined.

Lemma unscorable_payloads_witness :
  rawValue (value (run (homomorphicDiagnosis profile_envelope) world_a))
  = Scalar NaN
  /\ encryptedBlob (value (run (homomorphicDiagnosis profile_envelope) world_a))
     = "ct_0xNaN...9"%string.
Proof.
  destruct (unscorable_payloads profile_envelope world_a) as (H1 & _ & H3 & _).
  - left. eexists. reflexivity.
  - split; [exact H1 | exact H3].
Defined.

Lemma toy_lwe_example_witness :
  let t := run (generateToyLWE (of_Z 40) (of_Z 100)) world_a in
  exists a0 a1 a2 a3 err,
    (0 <= a0 <= 999 /\ 0 <= a1 <= 999 /\ 0 <= a2 <= 999 /\ 0 <= a3 <= 999)
    /\ 1 <= err <= 5
    /\ map to_Z (lwe_s t) = [Some 1; Some 0; Some 1; Some 0]
    /\ map to_Z (lwe_a t) = [Some a0; Some a1; Some a2; Some a3]
    /\ to_Z (lwe_error t) = Some err
    /\ to_Z (lwe_deltaM t) = Some (40 * 100)
    /\ to_Z (lwe_dotProduct t) = Some (a0 + a2)
    /\ to_Z (lwe_b t) = Some (a0 + a2 + 40 * 100 + err).
Proof.
  apply (toy_lwe_example (of_Z 40) (of_Z 100) world_a 40 100).
  - intros i _. repeat split; vm_compute; reflexivity.
  - reflexivity.
  - reflexivity.
  - vm_compute. reflexivity.
Defined.

Lemma label_reveals_seed_witness :
  (exists h,
      run (generateCiphertext (Vitals vitals_a)) world_a
      = ("ct_0x" ++ h ++ "..." ++ "9")%string
      /\ String.length h = 6%nat
      /\ all_hex h = true
      /\ Spec.parse_hex h = (298 * 1337 + 1700000000000) mod Spec.label_modulus)
  /\ (run (generateCiphertext (Vitals vitals_a)) world_a
      = run (generateCiphertext (Scalar (of_Z 298))) world_a
      <-> 298 = 298).
Proof.
  apply (label_reveals_seed (Vitals vitals_a) (Scalar (of_Z 298)) world_a
           298 298).
  - reflexivity.
  - reflexivity.
  - vm_compute. discriminate.
  - vm_compute. discriminate.
  - vm_compute. split; [discriminate | reflexivity].
Defined.

Lemma scores_are_whole_numbers_witness :
  (exists r k,
      rawValue (value (run (homomorphicDiagnosis (envelope_of (Vitals vitals_a)))
                           world_a)) = Scalar r
      /\ to_Z r = Some k /\ 0 <= k <= 99)
  /\ (exists r k,
         rawValue (value (run (homomorphicLabAnalysis
                                 (envelope_of (Vitals vitals_a))) world_a))
         = Scalar r
         /\ to_Z r = Some k /\ 0 <= k <= 100).
Proof.
  destruct (scores_are_whole_numbers (envelope_of (Vitals vitals_a)) world_a)
    as [Hd Hl].
  split.
  - apply Hd. vm_compute. reflexivity.
  - apply Hl. repeat split; vm_compute; discriminate.
Defined.

Lemma scored_label_reveals_score_witness :
  Spec.reveals (value (run (homomorphicDiagnosis (envelope_of (Vitals vitals_a)))
                           world_a)) 1700000000000 "9" 0 99
  /\ Spec.reveals (value (run (homomorphicLabAnalysis
                                 (envelope_of (Vitals vitals_a))) world_a))
       1700000000000 "9" 0 100
  /\ Spec.reveals (value (run (homomorphicBilling
                                 (envelope_of (Vitals vitals_a))) world_a))
       1700000000000 "9" 150 199.
Proof.
  destruct (scored_label_reveals_score (envelope_of (Vitals vitals_a)) world_a)
    as (Hd & Hl & Hb & _).
  - vm_compute. split; [discriminate | reflexivity].
  - split; [| split].
    + apply Hd. vm_compute. reflexivity.
    + apply Hl. repeat split; vm_compute; discriminate.
    + apply Hb; [reflexivity |]. repeat split; vm_compute; reflexivity.
Defined.

(** ** The audit log's time column *)

Lemma split_nonempty (sep : ascii) (s : string) : ProtocolLog.split sep s <> [].
Proof.
  destruct s as [| c s]; cbn [ProtocolLog.split]; [discriminate |].
  destruct (Ascii.eqb c sep); [discriminate |].
  destruct (ProtocolLog.split sep s); discriminate.
Qed.

Lemma split_second (sep : ascii) (s : string) :
  nth_error (ProtocolLog.split sep s) 1 = None
  <-> ProtocolLog.includes sep s = false.
Proof.
  unfold ProtocolLog.includes.
  induction s as [| c s IH]; cbn [ProtocolLog.split list_ascii_of_string existsb].
  - split; reflexivity.
  - rewrite (Ascii.eqb_sym sep c).
    destruct (Ascii.eqb c sep); cbn [orb].
    + pose proof (split_nonempty sep s) as Hne.
      destruct (ProtocolLog.split sep s); [contradiction |].
      split; discriminate.
    + pose proof (split_nonempty sep s) as Hne.
      destruct (ProtocolLog.split sep s) as [| h t]; [contradiction |].
      exact IH.
Qed.

Lemma split_app (sep : ascii) (p r : string) :
  ProtocolLog.includes sep p = false ->
  ProtocolLog.split sep (p ++ String sep r) = p :: ProtocolLog.split sep r.
Proof.
  unfold ProtocolLog.includes.
  induction p as [| c p IH]; cbn [append list_ascii_of_string existsb ProtocolLog.split];
    intros H.
  - rewrite Ascii.eqb_refl. reflexivity.
  - apply orb_false_elim in H. destruct H as [Hc Hp].
    rewrite (Ascii.eqb_sym c sep), Hc, (IH Hp). reflexivity.
Qed.

Lemma split_head (sep : ascii) (p r : string) :
  ProtocolLog.includes sep p = false ->
  exists h t, ProtocolLog.split sep (p ++ r) = (p ++ h)%string :: t.
Proof.
  unfold ProtocolLog.includes.
  induction p as [| c p IH]; cbn [append list_ascii_of_string existsb ProtocolLog.split];
    intros H.
  - pose proof (split_nonempty sep r) as Hne.
    destruct (ProtocolLog.split sep r) as [| h t]; [contradiction |].
    exists h, t. reflexivity.
  - apply orb_false_elim in H. destruct H as [Hc Hp].
    rewrite (Ascii.eqb_sym c sep), Hc.
    destruct (IH Hp) as (h & t & ->). exists h, t. reflexivity.
Qed.

Lemma substring_prefix (p q : string) :
  substring 0 (String.length p) (p ++ q) = p.
Proof.
  induction p as [| c p IH]; cbn [String.length append substring].
  - destruct q; reflexivity.
  - rewrite IH. reflexivity.
Qed.

Lemma substring_length_le (s : string) :
  forall n m : nat, (String.length (substring n m s) <= m)%nat.
Proof.
  induction s as [| c s IH]; intros n m.
  - destruct n, m; cbn; lia.
  - destruct n as [| n].
    + destruct m as [| m]; cbn [substring String.length]; [lia |].
      specialize (IH O m). lia.
    + cbn [substring]. apply IH.
Qed.

(** X16: the time column of the audit log.  Rendering a log entry throws
    exactly when its timestamp holds no T; for a timestamp made of a date
    without T, a T, and eight characters without T followed by anything,
    the column shows those eight characters; and what is shown is never
    longer than eight characters. *)
Theorem log_time_column :
  (forall timestamp,
      ProtocolLog.timeOfEntry timestamp = None
      <-> ProtocolLog.includes "T" timestamp = false)
  /\ (forall date time rest,
         ProtocolLog.includes "T" date = false ->
         ProtocolLog.includes "T" time = false ->
         String.length time = 8%nat ->
         ProtocolLog.timeOfEntry (date ++ String "T" (time ++ rest))
         = Some time)
  /\ (forall timestamp shown,
         ProtocolLog.timeOfEntry timestamp = Some shown ->
         (String.length shown <= 8)%nat).
Proof.
  split; [| split].
  - intros timestamp. unfold ProtocolLog.timeOfEntry.
    rewrite <- split_second.
    destruct (nth_error (ProtocolLog.split "T" timestamp) 1);
      split; intros H; try discriminate; reflexivity.
  - intros date time rest Hdate Htime Hlen. unfold ProtocolLog.timeOfEntry.
    rewrite (split_app _ _ _ Hdate).
    destruct (split_head "T" time rest Htime) as (h & t & ->).
    cbn [nth_error]. rewrite <- Hlen, substring_prefix. reflexivity.
  - intros timestamp shown. unfold ProtocolLog.timeOfEntry.
    destruct (nth_error (ProtocolLog.split "T" timestamp) 1); [| discriminate].
    intros [= <-]. apply substring_length_le.
Qed.

Lemma log_time_column_witness :
  ProtocolLog.timeOfEntry "2024-05-01T12:34:56.789Z" = Some "12:34:56"%string.
Proof.
  apply (proj1 (proj2 log_time_column) "2024-05-01"%string "12:34:56"%string
           ".789Z"%string); reflexivity.
Defined.
